(** * extract_metadata.py: metadata extraction, thumbnails and PDF pagination

    A shallow embedding of [extract_metadata.py].  The program runs three
    stages in sequence: [generate_thumbnails] walks a folder in sorted order
    and keeps the files that open as images, [collect_metadata] builds one
    entry per thumbnail, and [create_pdf_report] stacks the entries on A4
    pages.

    Conventions of the embedding.
    - Lengths on the page are Python floats in the source.  They are modelled
      as exact rationals ([Q]); comparisons are [Qlt]/[Qle] and equalities of
      lengths are stated with [==].
    - The PDF canvas is the trace of drawing calls made on it, in call order.
    - A Python [dict] whose iteration order matters is an association list in
      insertion order; a [dict] that is only looked up is a [gmap].
    - Exceptions that leave a function are an explicit [result].  When a
      stage raises, the run ends with that exception; the thumbnails written
      before it stay on disk and are not part of the result.
    - The scanned folder is a finite map from names to files and is not
      changed by the run: the thumbnail directory is taken to be another
      directory than the scanned one.  What a PIL call does on a file
      ([Image.open], [img.thumbnail], [img.save]) is data of that file: the
      value returned or the exception raised.
    - A file size is an [int]; its division by 2^20 is a double, modelled
      with the rounding to 53 bits written out ([float_of_int]).
    - Functions of imported packages that the program only calls are fields
      of the class [PyLibs], over the type [datetime] of dates and the type
      [number] of the numbers met in image info and tag values (int, float,
      Ratio). *)

From Stdlib Require Import Ascii QArith Qround Qabs Lqa DecimalString.
From stdpp Require Import gmap strings list sorting.

Local Open Scope string_scope.

(** ** Python helpers *)

(** [a or b] on values that are either [None] or an object without
    [__bool__]/[__len__] (every such object is truthy). *)
Definition py_or {A} (a b : option A) : option A :=
  match a with
  | Some v => Some v
  | None => b
  end.

(** [os.path.join(a, p)] for two components, POSIX flavour. *)
Definition ends_with_sep (a : string) : bool :=
  match String.rev a with
  | String c _ => if Ascii.eqb c "/"%char then true else false
  | EmptyString => false
  end.

Definition starts_with_sep (p : string) : bool :=
  match p with
  | String c _ => if Ascii.eqb c "/"%char then true else false
  | EmptyString => false
  end.

Definition path_join (a p : string) : string :=
  if starts_with_sep p then p
  else if ends_with_sep a then a ++ p
  else match a with
       | EmptyString => p
       | _ => a ++ "/" ++ p
       end.

(** [d[k] = v] on an insertion-ordered dict: an existing key keeps its
    position, a new key goes last. *)
Fixpoint dict_set {V} (d : list (string * V)) (k : string) (v : V)
  : list (string * V) :=
  match d with
  | [] => [(k, v)]
  | (k', v') :: d' =>
      if decide (k' = k) then (k, v) :: d' else (k', v') :: dict_set d' k v
  end.

(** [sorted(names)] on strings: ascending in the lexicographic order of the
    characters' codes. *)
Definition sorted (names : list string) : list string :=
  merge_sort String.le names.

(** [str(n)] for an [int]. *)
Definition str_int (n : Z) : string := NilZero.string_of_int (Z.to_int n).

(** Exceptions that can leave the functions modelled here.  [IOError] is
    Python 3's [OSError] and stands for its subclasses as well
    ([FileNotFoundError], PIL's [UnidentifiedImageError]): it is what
    [except IOError] catches.  [DecompressionBombError] is PIL's and is not
    an [OSError]; [OtherError] is any further class that is not one
    either, by name. *)
Inductive exn :=
| IOError
| IndexError
| ValueError
| DecompressionBombError
| OtherError (name : string).

Inductive result (A : Type) :=
| Ok (a : A)
| Raise (e : exn).
Arguments Ok {A} a.
Arguments Raise {A} e.

#[global] Instance result_ret : MRet result := @Ok.
#[global] Instance result_bind : MBind result := λ A B k r,
  match r with
  | Ok a => k a
  | Raise e => Raise e
  end.

Fixpoint for_each {A B} (f : A → result B) (l : list A) : result (list B) :=
  match l with
  | [] => Ok []
  | a :: l' => b ← f a; bs ← for_each f l'; Ok (b :: bs)
  end.

(** A [for] loop that updates a state: the first iteration that raises ends
    the loop. *)
Fixpoint for_loop {A S} (body : S → A → result S) (l : list A) (s : S)
  : result S :=
  match l with
  | [] => Ok s
  | a :: l' => s' ← body s a; for_loop body l' s'
  end.

(** Python's [<] on two lengths. *)
Definition Qltb (a b : Q) : bool := negb (Qle_bool b a).

(** ** Module constants *)

(** Modelled from the spec: [inch] and [A4] are imported from reportlab and
    are not defined in the sources.  Five inches are 360 points, so one inch
    is 72 points; centimetres and millimetres derive from it, and A4 is the
    standard 210 mm by 297 mm page. *)
Definition inch : Q := 72.
Definition cm : Q := inch / 2.54.
Definition mm : Q := cm * 0.1.
Definition A4 : Q * Q := (210 * mm, 297 * mm)%Q.

Definition PAGE_WIDTH : Q := fst A4.
Definition PAGE_HEIGHT : Q := snd A4.
Definition MARGIN : Q := 0.5 * inch.
Definition MAX_THUMB_DIM : Q := 5 * inch.
Definition LINE_HEIGHT : Q := 14.
Definition ENTRY_SPACING : Q := 0.3 * inch.

(** ** Imported library functions *)

Class PyLibs (datetime number : Type) := {
  (** [datetime.strptime(s, fmt)]; [None] when it raises *)
  strptime : string → string → option datetime;
  (** [dt.strftime(fmt)] *)
  strftime : datetime → string → string;
  (** [datetime.fromtimestamp(t)] *)
  fromtimestamp : Q → datetime;
  (** [str(n)], which is also what an f-string field prints *)
  str_number : number → string;
  (** [repr(n)], used when a list is printed *)
  repr_number : number → string;
}.

(** ** Data model *)

Section Model.
Context {datetime number : Type} {libs : PyLibs datetime number}.

(** The [values] attribute of an exifread tag: a string for ASCII fields, a
    list of numbers otherwise. *)
Inductive tag_values :=
| Chars (s : string)
| Items (l : list number).

Record IfdTag := { printable : string; values : tag_values }.

(** [str(v)] of a [values] attribute. *)
Definition str_values (v : tag_values) : string :=
  match v with
  | Chars s => s
  | Items l => "[" ++ String.concat ", " (map repr_number l) ++ "]"
  end.

(** [f"{v[0]}"]: the first character of a string or the first number of a
    list, printed; [IndexError] when there is none. *)
Definition str_values_0 (v : tag_values) : result string :=
  match v with
  | Chars (String c _) => Ok (String c EmptyString)
  | Chars EmptyString => Raise IndexError
  | Items (n :: _) => Ok (str_number n)
  | Items [] => Raise IndexError
  end.

(** [os.stat(path)]: [st_birthtime] only exists on some platforms. *)
Record stat_result := { st_birthtime : option Q; st_ctime : Q }.

(** What the program reads of an image opened by PIL, and what its two
    method calls do.  [Image.open] reads the header only: the pixel data is
    decoded later, when the image is resized or saved, and that raises on
    data that does not decode (an [OSError] on a truncated file);
    [img.save] picks the output format from the extension of the path and
    raises on a path it cannot write (a [ValueError] on a name without a
    known extension). *)
Record Image := {
  format : string;
  size : Z * Z;
  info_dpi : option (number * number);
  thumbnail_raises : option exn;       (* img.thumbnail: what it raises *)
  save_raises : string → option exn;   (* img.save(path): what it raises *)
}.

(** One directory entry, as seen through the calls the program makes.
    [Image.open] returns an image or raises: [Raise IOError] on a file that
    is not an image, another exception on a file that PIL refuses for
    another reason ([DecompressionBombError] on a header announcing too many
    pixels). *)
Record file := {
  isfile : bool;                       (* os.path.isfile *)
  stat : stat_result;                  (* os.stat *)
  getsize : Z;                         (* os.path.getsize, in 0 .. 2^63 - 1 *)
  image_open : result Image;           (* Image.open *)
  exif_tags : gmap string IfdTag;      (* exifread.process_file *)
}.

(** Value stored per filename by [generate_thumbnails]. *)
Record thumb_info := { path : string; thumb_px : Z * Z }.

(** The dict appended to [entries] by [collect_metadata]. *)
Record ImageEntry := {
  filename : string;
  doc_type : string;
  file_size : string;
  creation_date : string;
  image_size : string;
  dpi : string;
  thumb_path : string;
  thumb_size : Z * Z;
}.

(** Calls made on the reportlab canvas. *)
Inductive canvas_op :=
| ShowPage
| DrawImage (image : string) (x y width height : Q)
| SetFont (name : string) (points : Q)
| DrawString (x y : Q) (text : string)
| Save.

(** ** Formatting *)

(** The integer nearest to [num / den], the even one on a tie. *)
Definition round_half_even (num den : Z) : Z :=
  let q := (num / den)%Z in
  let r := (num mod den)%Z in
  if (den <? 2 * r)%Z then (q + 1)%Z
  else if (2 * r =? den)%Z && Z.odd q then (q + 1)%Z
  else q.

(** The double nearest to a non-negative [int], as the integer it is equal
    to: a double has 53 significant bits, so an integer below 2^53 is kept
    and a longer one is rounded to a multiple of the power of two that
    leaves 53 bits, ties to even.  (No overflow: a size is far below
    2^1024.) *)
Definition float_of_int (n : Z) : Z :=
  let e := Z.log2 n in
  if (e <? 53)%Z then n
  else
    let ulp := (2 ^ (e - 52))%Z in
    (round_half_even n ulp * ulp)%Z.

Definition two_digits (n : Z) : string :=
  if (n <? 10)%Z then "0" ++ str_int n else str_int n.

(** [f"{bytes_size / (1024*1024):.2f} MB"], for a size (an [int] that is
    not negative).  The true division of two [int]s is the double nearest to
    the quotient; the divisor being 2^20, this is [float_of_int bytes_size]
    over 2^20.  [.2f] then prints the exact value of that double rounded to
    hundredths, ties to even. *)
Definition format_filesize (bytes_size : Z) : string :=
  let h := round_half_even (100 * float_of_int bytes_size) (1024 * 1024) in
  str_int (h / 100) ++ "." ++ two_digits (h mod 100) ++ " MB".

Definition format_datetime (dt : datetime) : string :=
  strftime dt "%d %B %Y at %H:%M".

(** ** Creation date *)

Definition get_file_creation_date (f : file) : datetime :=
  let ctime :=
    match st_birthtime (stat f) with
    | Some t => t
    | None => st_ctime (stat f)
    end in
  fromtimestamp ctime.

Definition get_exif_tags (f : file) : gmap string IfdTag := exif_tags f.

Definition extract_creation_date (f : file) : datetime :=
  let tags := get_exif_tags f in
  let date_tag :=
    py_or (tags !! "EXIF DateTimeOriginal") (tags !! "Image DateTime") in
  match date_tag with
  | Some t =>
      match strptime (str_values (values t)) "%Y:%m:%d %H:%M:%S" with
      | Some dt => dt
      | None => get_file_creation_date f
      end
  | None => get_file_creation_date f
  end.

(** The priority chain as the specification words it: each tag in turn is
    parsed, and the filesystem date is used only when neither tag yields a
    date. *)
Definition parse_tag (tags : gmap string IfdTag) (key : string)
  : option datetime :=
  match tags !! key with
  | Some t => strptime (str_values (values t)) "%Y:%m:%d %H:%M:%S"
  | None => None
  end.

Definition spec_creation_date (f : file) : datetime :=
  match parse_tag (exif_tags f) "EXIF DateTimeOriginal" with
  | Some dt => dt
  | None =>
      match parse_tag (exif_tags f) "Image DateTime" with
      | Some dt => dt
      | None => get_file_creation_date f
      end
  end.

(** ** Thumbnails *)

(** Modelled from the spec: the rounding used by [Image.thumbnail], which
    belongs to PIL and is not part of the sources.  The exactly scaled
    length [v] is rounded to the one of its two neighbouring integers whose
    [key] (the deviation of the aspect ratio) is smaller, and never below
    one pixel. *)
Definition round_aspect (v : Q) (key : Z → Q) : Z :=
  let lo := Qfloor v in
  let hi := Qceiling v in
  Z.max (if Qle_bool (key lo) (key hi) then lo else hi) 1.

(** Modelled from the spec: [Image.thumbnail] belongs to PIL and is not part
    of the sources.  The image is resized so that neither dimension exceeds
    the requested box while the aspect ratio is preserved: an image that
    already fits is left alone; otherwise one side takes the box's length
    and the other is the exactly scaled length, rounded by
    [round_aspect]. *)
Definition thumbnail (sz : Z * Z) (box : Q * Q) : Z * Z :=
  let x := Qfloor (fst box) in
  let y := Qfloor (snd box) in
  let '(w, h) := sz in
  if (w <=? x)%Z && (h <=? y)%Z then (w, h)
  else
    let aspect := (inject_Z w / inject_Z h)%Q in
    if Qle_bool aspect (inject_Z x / inject_Z y) then
      (round_aspect (inject_Z y * aspect)
         (fun n => Qabs (aspect - inject_Z n / inject_Z y)), y)
    else
      (x, round_aspect (inject_Z x / aspect)
            (fun n => if (n =? 0)%Z then 0%Q
                      else Qabs (aspect - inject_Z x / inject_Z n))).

(** [os.listdir(folder)]: the names of the directory, in no particular
    order. *)
Definition listdir (folder : gmap string file) : list string :=
  (map_to_list folder).*1.

(** State of the loop of [generate_thumbnails]: the [thumbs] dict and the
    files saved so far, oldest first. *)
Definition thumbs_state : Type :=
  list (string * thumb_info) * list (string * (Z * Z)).

(** [img.thumbnail(box)]: raises, or leaves the image with the size
    computed by [thumbnail]. *)
Definition img_thumbnail (img : Image) (box : Q * Q) : result (Z * Z) :=
  match thumbnail_raises img with
  | Some e => Raise e
  | None => Ok (thumbnail (size img) box)
  end.

(** [img.save(path)]. *)
Definition img_save (img : Image) (p : string) : result unit :=
  match save_raises img p with
  | Some e => Raise e
  | None => Ok ()
  end.

(** The body of the loop of [generate_thumbnails].  Only [Image.open] is
    inside the [try], and only an [IOError] is caught there: any other
    exception of [Image.open], and every exception of [img.thumbnail] and
    [img.save], leaves the function. *)
Definition generate_step (folder : gmap string file) (thumb_dir : string)
    (st : thumbs_state) (fname : string) : result thumbs_state :=
  match folder !! fname with
  | None => Ok st
  | Some f =>
      if negb (isfile f) then Ok st
      else
        match image_open f with
        | Raise IOError => Ok st
        | Raise e => Raise e
        | Ok img =>
            sz ← img_thumbnail img (MAX_THUMB_DIM, MAX_THUMB_DIM);
            let thumb_path := path_join thumb_dir fname in
            _ ← img_save img thumb_path;
            Ok (dict_set (fst st) fname
                         {| path := thumb_path; thumb_px := sz |},
                (snd st ++ [(thumb_path, sz)])%list)
        end
  end.

Definition generate_thumbnails (folder : gmap string file)
    (thumb_dir : string) : result thumbs_state :=
  for_loop (generate_step folder thumb_dir) (sorted (listdir folder))
           ([], []).

(** ** Metadata *)

Definition resolve_dpi (img : Image) (f : file) : result string :=
  match info_dpi img with
  | Some dpi_info =>
      Ok (str_number (fst dpi_info) ++ " x " ++ str_number (snd dpi_info)
          ++ " dpi")
  | None =>
      let tags := get_exif_tags f in
      let xres := tags !! "Image XResolution" in
      let unit := tags !! "Image ResolutionUnit" in
      match xres, unit with
      | Some xr, Some un =>
          v ← str_values_0 (values xr);
          Ok (v ++ " " ++ str_values (values un))
      | _, _ => Ok "Unknown"
      end
  end.

Definition collect_entry (folder : gmap string file)
    (item : string * thumb_info) : result ImageEntry :=
  let '(fname, info) := item in
  match folder !! fname with
  | None => Raise IOError
  | Some f =>
      match image_open f with
      | Raise e => Raise e
      | Ok img =>
          let file_size := format_filesize (getsize f) in
          let creation := format_datetime (extract_creation_date f) in
          let '(width, height) := size img in
          let image_size := str_int width ++ " x " ++ str_int height in
          d ← resolve_dpi img f;
          Ok {| filename := fname;
                doc_type := format img;
                file_size := file_size;
                creation_date := creation;
                image_size := image_size;
                dpi := d;
                thumb_path := path info;
                thumb_size := thumb_px info |}
      end
  end.

Definition collect_metadata (folder : gmap string file)
    (thumbs : list (string * thumb_info)) : result (list ImageEntry) :=
  for_each (collect_entry folder) thumbs.

(** ** Report *)

Definition entry_lines (entry : ImageEntry) : list string :=
  [ "File name: " ++ filename entry;
    "Document Type: " ++ doc_type entry;
    "File size: " ++ file_size entry;
    "Creation Date: " ++ creation_date entry;
    "Image size: " ++ image_size entry;
    "Image DPI: " ++ dpi entry ].

Definition needed_space (entry : ImageEntry) : Q :=
  (inject_Z (snd (thumb_size entry)) + 6 * LINE_HEIGHT + ENTRY_SPACING)%Q.

(** The inner loop over the six lines: each is drawn at [text_y], which then
    moves down one line. *)
Fixpoint draw_lines (c : list canvas_op) (text_x text_y : Q)
    (lines : list string) : list canvas_op * Q :=
  match lines with
  | [] => (c, text_y)
  | line :: rest =>
      draw_lines (c ++ [DrawString text_x text_y line])%list text_x
                 (text_y - LINE_HEIGHT)%Q rest
  end.

(** The page test at the head of the loop body. *)
Definition page_break (y : Q) (entry : ImageEntry) : bool :=
  Qltb y (MARGIN + needed_space entry).

(** The cursor at which an entry is drawn, after the page test. *)
Definition draw_y (y : Q) (entry : ImageEntry) : Q :=
  if page_break y entry then (PAGE_HEIGHT - MARGIN)%Q else y.

(** One iteration of the loop of [create_pdf_report] on the canvas [c] with
    the cursor at [y]. *)
Definition report_step (st : list canvas_op * Q) (entry : ImageEntry)
  : list canvas_op * Q :=
  let '(c, y) := st in
  let x := MARGIN in
  let thumb_w := inject_Z (fst (thumb_size entry)) in
  let thumb_h := inject_Z (snd (thumb_size entry)) in
  let c := if page_break y entry then (c ++ [ShowPage])%list else c in
  let y := draw_y y entry in
  let c := (c ++ [DrawImage (thumb_path entry) x (y - thumb_h)%Q
                            thumb_w thumb_h])%list in
  let text_x := x in
  let text_y := (y - thumb_h - LINE_HEIGHT)%Q in
  let c := (c ++ [SetFont "Helvetica" 10])%list in
  let '(c, text_y) := draw_lines c text_x text_y (entry_lines entry) in
  (c, (text_y - ENTRY_SPACING)%Q).

Definition report_loop (entries : list ImageEntry) : list canvas_op * Q :=
  fold_left report_step entries ([], (PAGE_HEIGHT - MARGIN)%Q).

(** Returns the canvas trace and the line printed on standard output. *)
Definition create_pdf_report (entries : list ImageEntry)
    (output_pdf : string) : list canvas_op * string :=
  ((fst (report_loop entries) ++ [Save])%list,
   "PDF report generated: " ++ output_pdf).

(** ** Main *)

Record run := {
  saved_thumbnails : list (string * (Z * Z));
  report_entries : list ImageEntry;
  pdf : list canvas_op;
  stdout : string;
}.

(** [main], with [thumb_dir] the [thumbnails] directory computed next to the
    output file. *)
Definition main (folder : gmap string file) (thumb_dir output_pdf : string)
  : result run :=
  '(thumbs, saved) ← generate_thumbnails folder thumb_dir;
  entries ← collect_metadata folder thumbs;
  let '(c, out) := create_pdf_report entries output_pdf in
  Ok {| saved_thumbnails := saved;
        report_entries := entries;
        pdf := c;
        stdout := out |}.

End Model.

Arguments tag_values : clear implicits.
Arguments IfdTag : clear implicits.
Arguments Image : clear implicits.
Arguments file : clear implicits.

(** ** Properties stated in the theorems *)

Section Predicates.
Context {datetime number : Type} {libs : PyLibs datetime number}.

(** A file that [generate_thumbnails] keeps when it returns: a regular
    file that PIL opens. *)
Definition is_image (folder : gmap string (file number)) (fname : string) : bool :=
  match folder !! fname with
  | Some f => isfile f && match image_open f with
                          | Ok _ => true
                          | Raise _ => false
                          end
  | None => false
  end.

(** The record that a loop iteration of [generate_thumbnails] stores for a
    name when it does not raise, if any. *)
Definition thumb_record (folder : gmap string (file number))
    (thumb_dir fname : string) : option thumb_info :=
  f ← folder !! fname;
  if isfile f then
    match image_open f with
    | Ok img =>
        Some {| path := path_join thumb_dir fname;
                thumb_px := thumbnail (size img)
                              (MAX_THUMB_DIM, MAX_THUMB_DIM) |}
    | Raise _ => None
    end
  else None.

(** The exception that a loop iteration of [generate_thumbnails] raises on
    a name, if any: that of [Image.open] unless it is an [IOError], else
    that of [img.thumbnail], else that of [img.save]. *)
Definition step_raises (folder : gmap string (file number))
    (thumb_dir fname : string) : option exn :=
  f ← folder !! fname;
  if isfile f then
    match image_open f with
    | Ok img =>
        match thumbnail_raises img with
        | Some e => Some e
        | None => save_raises img (path_join thumb_dir fname)
        end
    | Raise IOError => None
    | Raise e => Some e
    end
  else None.

(** The exception of the first name, in sorted order, on which an
    iteration raises. *)
Definition stage_raises (folder : gmap string (file number))
    (thumb_dir : string) : option exn :=
  head (omap (step_raises folder thumb_dir) (sorted (listdir folder))).


(** Pixel dimensions within the bound enforced on thumbnails. *)
Definition thumb_bounded (entry : ImageEntry) : Prop :=
  (0 <= fst (thumb_size entry) <= 360)%Z ∧
  (0 <= snd (thumb_size entry) <= 360)%Z.

(** A drawing call stays inside the margins: it starts at the left margin,
    an image lies between the bottom and the top margin (and ends before the
    right one), and a text baseline lies at or above the bottom margin and
    at least one line height below the top margin. *)
Definition within_margins (op : canvas_op) : Prop :=
  match op with
  | DrawImage _ x y width height =>
      (x == MARGIN ∧ MARGIN <= y ∧ y + height <= PAGE_HEIGHT - MARGIN ∧
       x + width <= PAGE_WIDTH - MARGIN)%Q
  | DrawString x y _ =>
      (x == MARGIN ∧ MARGIN <= y ∧ y + LINE_HEIGHT <= PAGE_HEIGHT - MARGIN)%Q
  | ShowPage | SetFont _ _ | Save => True
  end.



(** The calls made on the canvas while the entry after [pre] is handled. *)
Definition ops_for (pre : list ImageEntry) (entry : ImageEntry)
  : list canvas_op :=
  drop (length (fst (report_loop pre)))
       (fst (report_loop (pre ++ [entry]))).




(** The distance the cursor moves down for one entry: the thumbnail, seven
    line heights and the entry spacing. *)
Definition advance (entry : ImageEntry) : Q :=
  (inject_Z (snd (thumb_size entry)) + 7 * LINE_HEIGHT + ENTRY_SPACING)%Q.

Fixpoint total_advance (l : list ImageEntry) : Q :=
  match l with
  | [] => 0%Q
  | e :: l' => (advance e + total_advance l')%Q
  end.

(** Number of [showPage] calls on a canvas. *)
Definition page_breaks (c : list canvas_op) : nat :=
  length (omap (λ op, match op with ShowPage => Some () | _ => None end) c).

(** A thumbnail height is never negative. *)
Definition nonneg_height (entry : ImageEntry) : Prop :=
  (0 <= snd (thumb_size entry))%Z.


(** What [os.path.join(a, p)] puts in front of a relative [p]. *)
Definition join_prefix (a : string) : string :=
  if ends_with_sep a then a
  else match a with
       | EmptyString => EmptyString
       | _ => a ++ "/"
       end.

End Predicates.

(** ** A concrete instance of the library functions

    Used for the worked examples below: dates are civil dates in UTC,
    [strptime] reads the zero-padded 19-character form that cameras write,
    and numbers are integers. *)

Module Sample.

Record date := {
  year : Z; month : Z; day : Z; hour : Z; minute : Z; second : Z;
}.

Definition digit (c : ascii) : option Z :=
  let n := Z.of_N (N_of_ascii c) in
  if (48 <=? n)%Z && (n <=? 57)%Z then Some (n - 48)%Z else None.

(** Reads exactly [n] decimal digits. *)
Fixpoint digits (n : nat) (acc : Z) (s : string) : option (Z * string) :=
  match n, s with
  | O, _ => Some (acc, s)
  | S n', String c s' => d ← digit c; digits n' (10 * acc + d)%Z s'
  | S _, EmptyString => None
  end.

Definition expect (c : ascii) (s : string) : option string :=
  match s with
  | String c' s' => if Ascii.eqb c c' then Some s' else None
  | EmptyString => None
  end.

Definition is_leap (y : Z) : bool :=
  ((y mod 4 =? 0) && negb (y mod 100 =? 0) || (y mod 400 =? 0))%Z.

Definition days_in_month (y m : Z) : Z :=
  if (m =? 2)%Z then (if is_leap y then 29 else 28)
  else if (m =? 4)%Z || (m =? 6)%Z || (m =? 9)%Z || (m =? 11)%Z then 30
  else 31.

Definition valid_date (d : date) : bool :=
  ((1 <=? year d) && (1 <=? month d) && (month d <=? 12) &&
   (1 <=? day d) && (day d <=? days_in_month (year d) (month d)) &&
   (hour d <=? 23) && (minute d <=? 59) && (second d <=? 59))%Z.

Definition parse_exif (s : string) : option date :=
  '(yy, s) ← digits 4 0 s; s ← expect ":" s;
  '(mm, s) ← digits 2 0 s; s ← expect ":" s;
  '(dd, s) ← digits 2 0 s; s ← expect " " s;
  '(hh, s) ← digits 2 0 s; s ← expect ":" s;
  '(mi, s) ← digits 2 0 s; s ← expect ":" s;
  '(ss, s) ← digits 2 0 s;
  let dt := {| year := yy; month := mm; day := dd;
               hour := hh; minute := mi; second := ss |} in
  match s with
  | EmptyString => if valid_date dt then Some dt else None
  | _ => None
  end.

Definition sample_strptime (s fmt : string) : option date :=
  if decide (fmt = "%Y:%m:%d %H:%M:%S") then parse_exif s else None.

Definition month_name (m : Z) : string :=
  nth (Z.to_nat (m - 1))
      ["January"; "February"; "March"; "April"; "May"; "June"; "July";
       "August"; "September"; "October"; "November"; "December"] "".

Definition sample_strftime (d : date) (fmt : string) : string :=
  if decide (fmt = "%d %B %Y at %H:%M") then
    two_digits (day d) ++ " " ++ month_name (month d) ++ " " ++
    str_int (year d) ++ " at " ++ two_digits (hour d) ++ ":" ++
    two_digits (minute d)
  else "".

(** Civil date of a day count since 1970-01-01. *)
Definition civil_from_days (z : Z) : Z * Z * Z :=
  let z := (z + 719468)%Z in
  let era := (z / 146097)%Z in
  let doe := (z - era * 146097)%Z in
  let yoe := ((doe - doe / 1460 + doe / 36524 - doe / 146096) / 365)%Z in
  let doy := (doe - (365 * yoe + yoe / 4 - yoe / 100))%Z in
  let mp := ((5 * doy + 2) / 153)%Z in
  let d := (doy - (153 * mp + 2) / 5 + 1)%Z in
  let m := (if (mp <? 10)%Z then mp + 3 else mp - 9)%Z in
  let y := (yoe + era * 400 + (if (m <=? 2)%Z then 1 else 0))%Z in
  (y, m, d).

Definition sample_fromtimestamp (t : Q) : date :=
  let secs := Qfloor t in
  let '(y, m, d) := civil_from_days (secs / 86400) in
  let r := (secs mod 86400)%Z in
  {| year := y; month := m; day := d;
     hour := (r / 3600)%Z; minute := (r mod 3600 / 60)%Z;
     second := (r mod 60)%Z |}.

#[global] Instance sample_libs : PyLibs date Z := {|
  strptime := sample_strptime;
  strftime := sample_strftime;
  fromtimestamp := sample_fromtimestamp;
  str_number := str_int;
  repr_number := str_int;
|}.

Definition ascii_tag (s : string) : IfdTag Z :=
  {| printable := s; values := Chars s |}.

Definition numeric_tag (l : list Z) : IfdTag Z :=
  {| printable := str_values (Items l); values := Items l |}.

Definition sample_stat : stat_result :=
  {| st_birthtime := None; st_ctime := 1700000000 |}.

(** The extension of a path: from the last dot of its last component, or
    nothing when that component has no dot after its first character.  [r]
    is the path read backwards. *)
Fixpoint splitext_rev (r acc : string) : string :=
  match r with
  | EmptyString => ""
  | String c r' =>
      if Ascii.eqb c "/"%char then ""
      else if Ascii.eqb c "."%char then
        match r' with
        | EmptyString => ""
        | String c' _ =>
            if Ascii.eqb c' "/"%char then "" else String "."%char acc
        end
      else splitext_rev r' (String c acc)
  end.

Definition extension (p : string) : string := splitext_rev (String.rev p) "".

(** [img.save(path)] for a complete image: the format is looked up from the
    (lower-case) extension, and an extension that names no format is a
    [ValueError]. *)
Definition sample_save (p : string) : option exn :=
  if bool_decide (extension p ∈ [".png"; ".jpg"; ".jpeg"; ".gif"; ".bmp";
                                 ".tif"; ".tiff"; ".webp"])
  then None else Some ValueError.

Definition photo (w h : Z) (d : option (Z * Z)) : Image Z :=
  {| format := "JPEG"; size := (w, h); info_dpi := d;
     thumbnail_raises := None; save_raises := sample_save |}.

(** A photograph with both date tags, the capture tag being unreadable. *)
Definition garbled_capture : file Z :=
  {| isfile := true; stat := sample_stat; getsize := 2500000;
     image_open := Ok (photo 3000 2000 (Some (72, 72)%Z));
     exif_tags :=
       <["EXIF DateTimeOriginal" := ascii_tag "0000:00:00 00:00:00"]>
       (<["Image DateTime" := ascii_tag "2021:03:04 05:06:07"]> ∅) |}.

(** A photograph with a readable capture tag. *)
Definition dated_photo : file Z :=
  {| isfile := true; stat := sample_stat; getsize := 2500000;
     image_open := Ok (photo 3000 2000 None);
     exif_tags :=
       <["EXIF DateTimeOriginal" := ascii_tag "2019:07:14 16:45:00"]>
       (<["Image XResolution" := numeric_tag [300%Z]]> ∅) |}.

(** A scan with resolution tags and no date tag. *)
Definition scan : file Z :=
  {| isfile := true; stat := sample_stat; getsize := 40000;
     image_open := Ok (photo 200 500 None);
     exif_tags :=
       <["Image XResolution" := numeric_tag [300%Z]]>
       (<["Image ResolutionUnit" := numeric_tag [2%Z]]> ∅) |}.

(** A sidecar file that is not an image. *)
Definition sidecar : file Z :=
  {| isfile := true; stat := sample_stat; getsize := 12;
     image_open := Raise IOError; exif_tags := ∅ |}.

Definition sample_folder : gmap string (file Z) :=
  <["b.jpg" := dated_photo]>
  (<["notes.txt" := sidecar]>
  (<["a.png" := scan]> ∅)).

Definition sample_entry (h : Z) : ImageEntry :=
  {| filename := "x.jpg"; doc_type := "JPEG"; file_size := "1.00 MB";
     creation_date := "01 January 2020 at 00:00"; image_size := "10 x 10";
     dpi := "Unknown"; thumb_path := "thumbnails/x.jpg";
     thumb_size := (h, h) |}.

(** A subdirectory, which [os.listdir] lists like a file. *)
Definition subdirectory : file Z :=
  {| isfile := false; stat := sample_stat; getsize := 4096;
     image_open := Raise IOError; exif_tags := ∅ |}.





(** The entries and the run of the sample folder. *)
Definition scan_entry : ImageEntry :=
  {| filename := "a.png"; doc_type := "JPEG"; file_size := "0.04 MB";
     creation_date := "14 November 2023 at 22:13";
     image_size := "200 x 500"; dpi := "300 [2]";
     thumb_path := "out/thumbnails/a.png"; thumb_size := (144, 360)%Z |}.

Definition photo_entry : ImageEntry :=
  {| filename := "b.jpg"; doc_type := "JPEG"; file_size := "2.38 MB";
     creation_date := "14 July 2019 at 16:45";
     image_size := "3000 x 2000"; dpi := "Unknown";
     thumb_path := "out/thumbnails/b.jpg"; thumb_size := (360, 240)%Z |}.

Definition sample_stage : thumbs_state :=
  ([("a.png", {| path := "out/thumbnails/a.png";
                 thumb_px := (144, 360)%Z |});
    ("b.jpg", {| path := "out/thumbnails/b.jpg";
                 thumb_px := (360, 240)%Z |})],
   [("out/thumbnails/a.png", (144, 360)%Z);
    ("out/thumbnails/b.jpg", (360, 240)%Z)]).

Definition sample_run : run :=
  {| saved_thumbnails := [("out/thumbnails/a.png", (144, 360)%Z);
                          ("out/thumbnails/b.jpg", (360, 240)%Z)];
     report_entries := [scan_entry; photo_entry];
     pdf := fst (create_pdf_report [scan_entry; photo_entry]
                                   "out/report.pdf");
     stdout := "PDF report generated: out/report.pdf" |}.

End Sample.

(** * Theorems *)

(** ** Page layout *)

Section LayoutFacts.
Local Open Scope Q_scope.

Lemma Qltb_lt (a b : Q) : Qltb a b = true ↔ a < b.
Proof.
  unfold Qltb. rewrite negb_true_iff. split.
  - intros H. apply Qnot_le_lt. intros Hle.
    apply Qle_bool_iff in Hle. congruence.
  - intros H. destruct (Qle_bool b a) eqn:E; [|done].
    apply Qle_bool_iff in E. exfalso. eapply Qlt_not_le; eauto.
Qed.

Lemma Qltb_ge (a b : Q) : Qltb a b = false ↔ b <= a.
Proof. unfold Qltb. rewrite negb_false_iff. apply Qle_bool_iff. Qed.

(** The constants, in points. *)
Lemma layout_values :
  PAGE_WIDTH == 75600 # 127 ∧ PAGE_HEIGHT == 106920 # 127 ∧ MARGIN == 36 ∧
  MAX_THUMB_DIM == 360 ∧ LINE_HEIGHT == 14 ∧ ENTRY_SPACING == 108 # 5.
Proof. vm_compute. done. Qed.

Ltac layout_constants :=
  unfold needed_space in *;
  destruct layout_values as (? & ? & ? & ? & ? & ?).

Ltac pixel_bounds :=
  change (inject_Z 0) with 0 in *; change (inject_Z 360) with 360 in *.

(** The test of the source, [y < MARGIN + needed_space], read as "the space
    left above the bottom margin is less than the space needed". *)
Lemma page_break_iff (y : Q) (e : ImageEntry) :
  page_break y e = true ↔ y - MARGIN < needed_space e.
Proof.
  unfold page_break. rewrite Qltb_lt. split; intros; lra.
Qed.

Lemma page_break_false_iff (y : Q) (e : ImageEntry) :
  page_break y e = false ↔ ¬ y - MARGIN < needed_space e.
Proof.
  rewrite <- page_break_iff. destruct (page_break y e); naive_solver.
Qed.

(** One iteration, unrolled: an optional page break, the image, the font
    and the six lines; the cursor ends seven line heights and one entry
    spacing below the thumbnail. *)
Lemma report_step_unfold (c : list canvas_op) (y : Q) (e : ImageEntry) :
  let y0 := draw_y y e in
  let h := inject_Z (snd (thumb_size e)) in
  let t := y0 - h - LINE_HEIGHT in
  report_step (c, y) e =
    ((c ++ (if page_break y e then [ShowPage] else []) ++
      [ DrawImage (thumb_path e) MARGIN (y0 - h)
                  (inject_Z (fst (thumb_size e))) h;
        SetFont "Helvetica" 10;
        DrawString MARGIN t ("File name: " ++ filename e);
        DrawString MARGIN (t - LINE_HEIGHT)
                   ("Document Type: " ++ doc_type e);
        DrawString MARGIN (t - LINE_HEIGHT - LINE_HEIGHT)
                   ("File size: " ++ file_size e);
        DrawString MARGIN (t - LINE_HEIGHT - LINE_HEIGHT - LINE_HEIGHT)
                   ("Creation Date: " ++ creation_date e);
        DrawString MARGIN
                   (t - LINE_HEIGHT - LINE_HEIGHT - LINE_HEIGHT - LINE_HEIGHT)
                   ("Image size: " ++ image_size e);
        DrawString MARGIN
                   (t - LINE_HEIGHT - LINE_HEIGHT - LINE_HEIGHT - LINE_HEIGHT
                    - LINE_HEIGHT)
                   ("Image DPI: " ++ dpi e) ])%list,
     t - LINE_HEIGHT - LINE_HEIGHT - LINE_HEIGHT - LINE_HEIGHT - LINE_HEIGHT
       - LINE_HEIGHT - ENTRY_SPACING).
Proof.
  intros y0 h t. unfold report_step, entry_lines. simpl draw_lines.
  f_equal. destruct (page_break y e); simpl; rewrite <- ?app_assoc; done.
Qed.

Lemma report_loop_snoc (pre : list ImageEntry) (e : ImageEntry) :
  report_loop (pre ++ [e]) = report_step (report_loop pre) e.
Proof. unfold report_loop. by rewrite fold_left_app. Qed.

Lemma report_step_extends (st : list canvas_op * Q) (e : ImageEntry) :
  ∃ ops, fst (report_step st e) = (fst st ++ ops)%list.
Proof.
  destruct st as [c y]. rewrite report_step_unfold. simpl. eauto.
Qed.

Lemma fold_report_step_extends (l : list ImageEntry)
    (st : list canvas_op * Q) :
  ∃ ops, fst (fold_left report_step l st) = (fst st ++ ops)%list.
Proof.
  revert st. induction l as [|e l IH]; intros st; simpl.
  - exists []. by rewrite app_nil_r.
  - destruct (IH (report_step st e)) as [ops1 ->].
    destruct (report_step_extends st e) as [ops0 ->].
    exists (ops0 ++ ops1)%list. by rewrite app_assoc.
Qed.

Lemma ops_for_step (pre : list ImageEntry) (e : ImageEntry) :
  fst (report_loop (pre ++ [e])) = (fst (report_loop pre) ++ ops_for pre e)%list.
Proof.
  unfold ops_for. rewrite report_loop_snoc.
  destruct (report_step_extends (report_loop pre) e) as [ops ->].
  by rewrite drop_app_length.
Qed.

Lemma ops_for_unfold (pre : list ImageEntry) (e : ImageEntry) :
  let y := snd (report_loop pre) in
  ∃ rest,
    ops_for pre e =
      ((if page_break y e then [ShowPage] else []) ++
       DrawImage (thumb_path e) MARGIN
                 (draw_y y e - inject_Z (snd (thumb_size e)))
                 (inject_Z (fst (thumb_size e)))
                 (inject_Z (snd (thumb_size e))) :: rest)%list ∧
    ShowPage ∉ rest.
Proof.
  intros y. subst y. unfold ops_for. rewrite report_loop_snoc.
  destruct (report_loop pre) as [c y]. rewrite report_step_unfold.
  cbv zeta. simpl fst. simpl snd. rewrite drop_app_length.
  eexists. split; [reflexivity|].
  rewrite !not_elem_of_cons. repeat split; try done. apply not_elem_of_nil.
Qed.

(** The cursor never rises above the top margin. *)
Lemma draw_y_bounds (y : Q) (e : ImageEntry) :
  thumb_bounded e → y <= PAGE_HEIGHT - MARGIN →
  MARGIN + needed_space e <= draw_y y e ∧ draw_y y e <= PAGE_HEIGHT - MARGIN.
Proof.
  intros [_ [H0 H1]] Hy. unfold draw_y.
  rewrite Zle_Qle in H0, H1. pixel_bounds.
  destruct (page_break y e) eqn:E.
  - split; layout_constants; lra.
  - unfold page_break in E. apply Qltb_ge in E. split; lra.
Qed.

Lemma report_step_within (c : list canvas_op) (y : Q) (e : ImageEntry) :
  thumb_bounded e → Forall within_margins c → y <= PAGE_HEIGHT - MARGIN →
  Forall within_margins (fst (report_step (c, y) e)) ∧
  snd (report_step (c, y) e) <= PAGE_HEIGHT - MARGIN.
Proof.
  intros Hb Hc Hy. destruct (draw_y_bounds y e Hb Hy) as [Hlo Hhi].
  destruct Hb as [[Hw0 Hw1] [Hh0 Hh1]].
  rewrite Zle_Qle in Hw0, Hw1, Hh0, Hh1. pixel_bounds.
  rewrite report_step_unfold. cbv zeta. simpl fst. simpl snd.
  set (y0 := draw_y y e) in *. clearbody y0.
  split.
  - apply Forall_app. split; [done|]. apply Forall_app. split.
    + destruct (page_break y e); repeat constructor.
    + repeat constructor; simpl; layout_constants; lra.
  - layout_constants. lra.
Qed.

Lemma report_loop_within (entries : list ImageEntry) :
  Forall thumb_bounded entries →
  Forall within_margins (fst (report_loop entries)) ∧
  snd (report_loop entries) <= PAGE_HEIGHT - MARGIN.
Proof.
  induction entries as [|e pre IH] using rev_ind; intros Hall.
  - split; [constructor|]. simpl. lra.
  - apply Forall_app in Hall as [Hpre He].
    apply Forall_cons in He as [He _].
    destruct (IH Hpre) as [Hc Hy].
    rewrite report_loop_snoc.
    destruct (report_loop pre) as [c y]. by apply report_step_within.
Qed.


(** The cursor is always [PAGE_HEIGHT] minus a whole number of fifths of a
    point. *)
Lemma cursor_fifths (entries : list ImageEntry) :
  ∃ k : Z, snd (report_loop entries) == PAGE_HEIGHT - inject_Z k * (1 # 5).
Proof.
  induction entries as [|e pre [k Hk]] using rev_ind.
  - exists 180%Z. unfold report_loop. simpl snd.
    change (inject_Z 180) with 180. layout_constants. lra.
  - rewrite report_loop_snoc. destruct (report_loop pre) as [c y].
    rewrite report_step_unfold. cbv zeta. simpl snd in *.
    unfold draw_y. destruct (page_break y e).
    + exists (180 + 5 * snd (thumb_size e) + 598)%Z.
      rewrite !inject_Z_plus, inject_Z_mult.
      change (inject_Z 180) with 180. change (inject_Z 598) with 598.
      change (inject_Z 5) with 5. layout_constants. lra.
    + exists (k + 5 * snd (thumb_size e) + 598)%Z.
      rewrite !inject_Z_plus, inject_Z_mult.
      change (inject_Z 598) with 598. change (inject_Z 5) with 5.
      layout_constants. lra.
Qed.

(** The two sides of the page test are never closer than 1/635 point: the
    outcome of the test never hinges on an exact tie, which is where exact
    and floating-point arithmetic could part. *)
Lemma page_test_gap (pre : list ImageEntry) (e : ImageEntry) :
  let d := snd (report_loop pre) - (MARGIN + needed_space e) in
  d <= - (1 # 635) ∨ 1 # 635 <= d.
Proof.
  intros d. subst d. destruct (cursor_fifths pre) as [k Hk].
  set (m := (k + 5 * snd (thumb_size e) + 708)%Z).
  assert (Hd : snd (report_loop pre) - (MARGIN + needed_space e)
               == inject_Z (534600 - 127 * m) * (1 # 635)).
  { subst m. unfold Z.sub.
    rewrite !inject_Z_plus, inject_Z_opp, !inject_Z_mult, !inject_Z_plus,
      inject_Z_mult.
    change (inject_Z 534600) with 534600. change (inject_Z 127) with 127.
    change (inject_Z 708) with 708. change (inject_Z 5) with 5.
    layout_constants. lra. }
  rewrite Hd. clear Hd Hk.
  destruct (Z_lt_le_dec (534600 - 127 * m) 0) as [Hneg|Hpos].
  - left. assert (H1 : (534600 - 127 * m <= -1)%Z) by lia.
    rewrite Zle_Qle in H1. change (inject_Z (-1)) with (-1) in H1. lra.
  - right. assert (H1 : (1 <= 534600 - 127 * m)%Z) by lia.
    rewrite Zle_Qle in H1. change (inject_Z 1) with 1 in H1. lra.
Qed.

(** C2: while the report is composed, the entry that follows any prefix
    [pre] starts a new page exactly when the space left above the bottom
    margin, [y - MARGIN], is less than its needed space (thumbnail height
    plus six line heights plus the entry spacing).  When it does, the cursor
    is reset to [PAGE_HEIGHT - MARGIN] and the entry's thumbnail is drawn
    right after the page break with its top edge there; when it does not,
    the thumbnail is drawn at the current cursor. *)
Theorem C2_new_page_exactly_when_space_is_short
    (pre : list ImageEntry) (e : ImageEntry) :
  let y := snd (report_loop pre) in
  let w := inject_Z (fst (thumb_size e)) in
  let h := inject_Z (snd (thumb_size e)) in
  needed_space e == h + 6 * LINE_HEIGHT + ENTRY_SPACING ∧
  (∀ post, ∃ rest,
     fst (report_loop (pre ++ e :: post)) =
       (fst (report_loop pre) ++ ops_for pre e ++ rest)%list) ∧
  (ShowPage ∈ ops_for pre e ↔ y - MARGIN < needed_space e) ∧
  (y - MARGIN < needed_space e →
     draw_y y e = PAGE_HEIGHT - MARGIN ∧
     ∃ rest, ops_for pre e =
       ShowPage ::
       DrawImage (thumb_path e) MARGIN (PAGE_HEIGHT - MARGIN - h) w h ::
       rest) ∧
  (¬ y - MARGIN < needed_space e →
     draw_y y e = y ∧
     ∃ rest, ops_for pre e =
       DrawImage (thumb_path e) MARGIN (y - h) w h :: rest).
Proof.
  intros y w h.
  destruct (ops_for_unfold pre e) as (rest & Hops & Hrest). fold y w h in Hops.
  split; [unfold needed_space; subst h; lra|].
  split.
  { intros post.
    replace (pre ++ e :: post)%list with ((pre ++ [e]) ++ post)%list
      by (by rewrite <- app_assoc).
    unfold report_loop at 1. rewrite fold_left_app.
    destruct (fold_report_step_extends post
                (fold_left report_step (pre ++ [e])%list
                   ([], PAGE_HEIGHT - MARGIN))) as [more ->].
    exists more. fold (report_loop (pre ++ [e])).
    by rewrite ops_for_step, app_assoc. }
  split.
  { rewrite <- page_break_iff, Hops.
    destruct (page_break y e); simpl.
    - split; [done|]. intros _. apply list_elem_of_here.
    - split; [|done]. rewrite elem_of_cons. intros [?|?]; done. }
  split.
  - intros Hlt. apply page_break_iff in Hlt. unfold draw_y in *.
    rewrite Hlt in *. split; [done|]. rewrite Hops. simpl. eauto.
  - intros Hge. apply page_break_false_iff in Hge. unfold draw_y in *.
    rewrite Hge in *. split; [done|]. rewrite Hops. simpl. eauto.
Qed.

(** C3, amended: for every entry the cursor moves down by the needed space
    plus one further line height, that is by the thumbnail height plus
    seven line heights plus the entry spacing; two consecutive entries on
    the same page have their top edges that far apart. *)
Theorem C3_cursor_advance (pre : list ImageEntry) (e : ImageEntry) :
  let y := snd (report_loop pre) in
  let y' := snd (report_loop (pre ++ [e])) in
  let h := inject_Z (snd (thumb_size e)) in
  draw_y y e - y' == needed_space e + LINE_HEIGHT ∧
  needed_space e + LINE_HEIGHT == h + 7 * LINE_HEIGHT + ENTRY_SPACING ∧
  (∀ e', ¬ y' - MARGIN < needed_space e' →
         draw_y y e - draw_y y' e' == needed_space e + LINE_HEIGHT).
Proof.
  intros y y' h.
  assert (Hadv : draw_y y e - y' == needed_space e + LINE_HEIGHT).
  { subst y y' h. rewrite report_loop_snoc.
    destruct (report_loop pre) as [c y]. rewrite report_step_unfold.
    cbv zeta. simpl snd. unfold needed_space. lra. }
  split; [exact Hadv|]. split.
  - unfold needed_space. subst h. lra.
  - intros e' Hfit. apply page_break_false_iff in Hfit.
    unfold draw_y at 2. rewrite Hfit. exact Hadv.
Qed.

(** C8: when every entry's thumbnail has both dimensions between 0 and 360
    pixels, every call drawn on the canvas stays within the page margins:
    images and text start at the left margin, each image lies between the
    bottom and the top margin, and each of the six baselines lies at or
    above the bottom margin and below the top margin. *)
Theorem C8_drawing_within_margins
    (entries : list ImageEntry) (output_pdf : string) :
  Forall thumb_bounded entries →
  Forall within_margins (fst (create_pdf_report entries output_pdf)).
Proof.
  intros Hall. unfold create_pdf_report. simpl fst.
  apply Forall_app. split.
  - by apply report_loop_within.
  - repeat constructor.
Qed.

End LayoutFacts.

(** Two tall entries fill the first page; the third overflows. *)
Lemma C2_witness :
  ∃ rest,
    ops_for (replicate 2 (Sample.sample_entry 150)) (Sample.sample_entry 150)
    = ShowPage ::
      DrawImage "thumbnails/x.jpg" MARGIN
                (PAGE_HEIGHT - MARGIN - inject_Z 150)
                (inject_Z 150) (inject_Z 150) :: rest.
Proof.
  apply (C2_new_page_exactly_when_space_is_short
           (replicate 2 (Sample.sample_entry 150)) (Sample.sample_entry 150)).
  vm_compute. reflexivity.
Defined.

(** A 100-pixel thumbnail at the top of the first page: 205.6 points are
    needed, and the cursor moves down by 219.6 points. *)
Example cursor_advance_sample :
  (needed_space (Sample.sample_entry 100) == 1028 # 5 ∧
   draw_y (snd (report_loop [])) (Sample.sample_entry 100)
   - snd (report_loop [Sample.sample_entry 100]) == 1098 # 5)%Q.
Proof. split; vm_compute; reflexivity. Qed.

Lemma C3_counterexample :
  ¬ (draw_y (snd (report_loop [])) (Sample.sample_entry 100)
     - snd (report_loop ([] ++ [Sample.sample_entry 100]))
     == needed_space (Sample.sample_entry 100))%Q.
Proof. vm_compute. discriminate. Qed.

Lemma C3_witness :
  (draw_y (snd (report_loop [])) (Sample.sample_entry 100)
   - draw_y (snd (report_loop ([] ++ [Sample.sample_entry 100])))
            (Sample.sample_entry 200)
   == needed_space (Sample.sample_entry 100) + LINE_HEIGHT)%Q.
Proof.
  apply (C3_cursor_advance [] (Sample.sample_entry 100)).
  vm_compute. discriminate.
Defined.

Lemma C8_witness :
  Forall within_margins
    (fst (create_pdf_report (replicate 5 (Sample.sample_entry 360))
                            "report.pdf")).
Proof.
  apply C8_drawing_within_margins.
  repeat constructor; simpl; lia.
Defined.

(** ** Creation date and resolution *)

Section MetadataFacts.
Context {datetime number : Type} {libs : PyLibs datetime number}.

Lemma collect_entry_ok (folder : gmap string (file number)) (fname : string)
    (info : thumb_info) (f : file number) (img : Image number) (d : string) :
  folder !! fname = Some f → image_open f = Ok img →
  resolve_dpi img f = Ok d →
  ∃ e, collect_entry folder (fname, info) = Ok e ∧
       filename e = fname ∧ dpi e = d ∧
       creation_date e = format_datetime (extract_creation_date f) ∧
       thumb_path e = path info ∧ thumb_size e = thumb_px info.
Proof.
  intros Hf Himg Hd. unfold collect_entry. rewrite Hf, Himg.
  destruct (size img) as [width height]. rewrite Hd. simpl.
  eexists. split; [reflexivity|]. simpl. done.
Qed.

Lemma collect_entry_inv (folder : gmap string (file number)) (fname : string)
    (info : thumb_info) (e : ImageEntry) :
  collect_entry folder (fname, info) = Ok e →
  ∃ f img, folder !! fname = Some f ∧ image_open f = Ok img ∧
           resolve_dpi img f = Ok (dpi e) ∧ filename e = fname ∧
           thumb_path e = path info ∧ thumb_size e = thumb_px info.
Proof.
  unfold collect_entry. destruct (folder !! fname) as [f|]; [|done].
  destruct (image_open f) as [img|] eqn:Himg; [|done].
  destruct (size img) as [width height].
  destruct (resolve_dpi img f) as [d|] eqn:Hd; simpl; [|discriminate].
  intros [= <-]. exists f, img. simpl. done.
Qed.

(** C1, amended: the date tag is chosen by presence, [EXIF DateTimeOriginal]
    first and [Image DateTime] only when the former is absent, and the chosen
    tag alone is parsed with ["%Y:%m:%d %H:%M:%S"].  When it parses, its
    value is the creation date, whatever the filesystem says; when no tag is
    present or the chosen tag does not parse, the creation date is the
    filesystem one (birth time where available, else status-change time).
    This agrees with the chain "each tag in turn, then the filesystem"
    whenever the capture tag is absent or parses. *)
Theorem C1_creation_date_priority (f : file number) :
  let tags := exif_tags f in
  let fmt := "%Y:%m:%d %H:%M:%S" in
  (∀ t d, tags !! "EXIF DateTimeOriginal" = Some t →
          strptime (str_values (values t)) fmt = Some d →
          extract_creation_date f = d) ∧
  (∀ t d, tags !! "EXIF DateTimeOriginal" = None →
          tags !! "Image DateTime" = Some t →
          strptime (str_values (values t)) fmt = Some d →
          extract_creation_date f = d) ∧
  (∀ t, py_or (tags !! "EXIF DateTimeOriginal") (tags !! "Image DateTime")
          = Some t →
        strptime (str_values (values t)) fmt = None →
        extract_creation_date f = get_file_creation_date f) ∧
  (tags !! "EXIF DateTimeOriginal" = None →
   tags !! "Image DateTime" = None →
   extract_creation_date f = get_file_creation_date f) ∧
  get_file_creation_date f =
    fromtimestamp (default (st_ctime (stat f)) (st_birthtime (stat f))) ∧
  (tags !! "EXIF DateTimeOriginal" = None ∨
   is_Some (parse_tag tags "EXIF DateTimeOriginal") →
   extract_creation_date f = spec_creation_date f).
Proof.
  intros tags fmt. subst tags fmt.
  unfold extract_creation_date, spec_creation_date, parse_tag, get_exif_tags.
  repeat apply conj.
  - intros t d Ht Hd. rewrite Ht. simpl. by rewrite Hd.
  - intros t d Ho Ht Hd. rewrite Ho, Ht. simpl. by rewrite Hd.
  - intros t Ht Hd. rewrite Ht. by rewrite Hd.
  - intros Ho Ht. by rewrite Ho, Ht.
  - unfold get_file_creation_date.
    destruct (st_birthtime (stat f)); reflexivity.
  - intros [->|[d Hd]]; simpl.
    + destruct (exif_tags f !! "Image DateTime") as [t|]; [|done].
      by destruct (strptime _ _).
    + destruct (exif_tags f !! "EXIF DateTimeOriginal") as [t|]; [|done].
      simpl. by rewrite Hd.
Qed.

(** C9: when [EXIF DateTimeOriginal] is present but does not parse with
    ["%Y:%m:%d %H:%M:%S"], the creation date is the filesystem creation
    time; [Image DateTime] is not consulted, even when it is present and
    parses. *)
Theorem C9_unparsed_capture_tag_bypasses_datetime (f : file number) (t : IfdTag number) :
  exif_tags f !! "EXIF DateTimeOriginal" = Some t →
  strptime (str_values (values t)) "%Y:%m:%d %H:%M:%S" = None →
  extract_creation_date f = get_file_creation_date f ∧
  (∀ t' d, exif_tags f !! "Image DateTime" = Some t' →
           strptime (str_values (values t')) "%Y:%m:%d %H:%M:%S" = Some d →
           extract_creation_date f = get_file_creation_date f) ∧
  (∀ o : option (IfdTag number),
     extract_creation_date
       {| isfile := isfile f; stat := stat f; getsize := getsize f;
          image_open := image_open f;
          exif_tags := partial_alter (λ _, o) "Image DateTime" (exif_tags f) |}
     = extract_creation_date f).
Proof.
  intros Ht Hparse.
  assert (H : extract_creation_date f = get_file_creation_date f).
  { unfold extract_creation_date, get_exif_tags. rewrite Ht. simpl.
    by rewrite Hparse. }
  split; [done|]. split; [done|].
  intros o. rewrite H.
  unfold extract_creation_date, get_exif_tags, get_file_creation_date.
  simpl. rewrite lookup_partial_alter_ne by done. rewrite Ht. simpl.
  by rewrite Hparse.
Qed.


(** C10: without resolution info on the decoded image, when exactly one of
    [Image XResolution] and [Image ResolutionUnit] is present the DPI
    descriptor is "Unknown": the tags are used only when both are there. *)
Theorem C10_single_resolution_tag_is_unknown (folder : gmap string (file number))
    (fname : string) (info : thumb_info) (f : file number) (img : Image number) :
  folder !! fname = Some f → image_open f = Ok img →
  info_dpi img = None →
  (is_Some (exif_tags f !! "Image XResolution") ∧
   exif_tags f !! "Image ResolutionUnit" = None) ∨
  (exif_tags f !! "Image XResolution" = None ∧
   is_Some (exif_tags f !! "Image ResolutionUnit")) →
  resolve_dpi img f = Ok "Unknown" ∧
  ∃ e, collect_entry folder (fname, info) = Ok e ∧ dpi e = "Unknown".
Proof.
  intros Hf Himg Hd Hone.
  assert (H : resolve_dpi img f = Ok "Unknown").
  { unfold resolve_dpi, get_exif_tags. rewrite Hd.
    destruct Hone as [[[xr Hx] Hu]|[Hx _]]; rewrite Hx; [by rewrite Hu|done]. }
  split; [done|].
  destruct (collect_entry_ok folder fname info f img "Unknown" Hf Himg H)
    as (e & ? & ? & ? & _). eauto.
Qed.

End MetadataFacts.

Lemma C1_counterexample :
  parse_tag (exif_tags Sample.garbled_capture) "Image DateTime"
    = Some {| Sample.year := 2021; Sample.month := 3; Sample.day := 4;
              Sample.hour := 5; Sample.minute := 6; Sample.second := 7 |} ∧
  extract_creation_date Sample.garbled_capture
    = get_file_creation_date Sample.garbled_capture ∧
  extract_creation_date Sample.garbled_capture
    ≠ spec_creation_date Sample.garbled_capture.
Proof. vm_compute. repeat split; congruence. Qed.

Lemma C1_witness :
  extract_creation_date Sample.dated_photo
  = {| Sample.year := 2019; Sample.month := 7; Sample.day := 14;
       Sample.hour := 16; Sample.minute := 45; Sample.second := 0 |}.
Proof.
  assert (Ht : exif_tags Sample.dated_photo !! "EXIF DateTimeOriginal"
               = Some (Sample.ascii_tag "2019:07:14 16:45:00"))
    by (vm_compute; reflexivity).
  exact (proj1 (C1_creation_date_priority Sample.dated_photo) _ _ Ht eq_refl).
Defined.

Lemma C9_witness :
  extract_creation_date Sample.garbled_capture
  = get_file_creation_date Sample.garbled_capture.
Proof.
  assert (Ht : exif_tags Sample.garbled_capture !! "EXIF DateTimeOriginal"
               = Some (Sample.ascii_tag "0000:00:00 00:00:00"))
    by (vm_compute; reflexivity).
  assert (Hp : strptime (str_values (values
                 (Sample.ascii_tag "0000:00:00 00:00:00")))
                 "%Y:%m:%d %H:%M:%S" = @None Sample.date)
    by (vm_compute; reflexivity).
  exact (proj1 (C9_unparsed_capture_tag_bypasses_datetime _ _ Ht Hp)).
Defined.



Lemma C10_witness :
  ∃ e, collect_entry Sample.sample_folder
         ("b.jpg", {| path := "thumbnails/b.jpg"; thumb_px := (360, 240)%Z |})
       = Ok e ∧ dpi e = "Unknown".
Proof.
  assert (Hf : Sample.sample_folder !! "b.jpg" = Some Sample.dated_photo)
    by (vm_compute; reflexivity).
  assert (Hx : is_Some (exif_tags Sample.dated_photo !! "Image XResolution"))
    by (exists (Sample.numeric_tag [300%Z]); vm_compute; reflexivity).
  assert (Hu : exif_tags Sample.dated_photo !! "Image ResolutionUnit" = None)
    by (vm_compute; reflexivity).
  exact (proj2 (C10_single_resolution_tag_is_unknown Sample.sample_folder
           "b.jpg" {| path := "thumbnails/b.jpg"; thumb_px := (360, 240)%Z |}
           Sample.dated_photo (Sample.photo 3000 2000 None)
           Hf eq_refl eq_refl (or_introl (conj Hx Hu)))).
Defined.

(** ** Thumbnails *)

Section ThumbnailFacts.
Local Open Scope Q_scope.

Lemma round_aspect_spec (v : Q) (key : Z → Q) :
  0 < v →
  (1 <= round_aspect v key)%Z ∧ (round_aspect v key <= Qceiling v)%Z ∧
  -1 < inject_Z (round_aspect v key) - v ∧
  inject_Z (round_aspect v key) - v < 1.
Proof.
  intros Hv. unfold round_aspect.
  pose proof (Qfloor_le v) as Hlo. pose proof (Qlt_floor v) as Hlo'.
  pose proof (Qle_ceiling v) as Hhi. pose proof (Qceiling_lt v) as Hhi'.
  rewrite inject_Z_plus in Hlo'.
  unfold Z.sub in Hhi'. rewrite inject_Z_plus, inject_Z_opp in Hhi'.
  change (inject_Z 1) with 1 in *.
  assert (H1 : (1 <= Qceiling v)%Z).
  { cut (0 < Qceiling v)%Z; [lia|]. rewrite Zlt_Qlt.
    change (inject_Z 0) with 0. lra. }
  assert (H0 : (0 <= Qfloor v)%Z).
  { cut (0 < Qfloor v + 1)%Z; [lia|]. rewrite Zlt_Qlt, inject_Z_plus.
    change (inject_Z 0) with 0. change (inject_Z 1) with 1. lra. }
  assert (Hle : (Qfloor v <= Qceiling v)%Z) by (rewrite Zle_Qle; lra).
  destruct (Qle_bool _ _).
  - destruct (Z.eq_dec (Qfloor v) 0%Z) as [E|E].
    + rewrite E in *. change (Z.max 0 1) with 1%Z.
      change (inject_Z 0) with 0 in *. change (inject_Z 1) with 1.
      repeat split; try lia; lra.
    + rewrite Z.max_l by lia. repeat split; try lia; lra.
  - rewrite Z.max_l by lia. repeat split; try lia; lra.
Qed.

Lemma max_thumb_box : Qfloor MAX_THUMB_DIM = 360%Z.
Proof. reflexivity. Qed.

(** The thumbnail of a [w] by [h] image in the 360 by 360 box: both sides
    are between 1 and 360 pixels, and the aspect ratio is kept up to
    rounding, [|tw * h - th * w| < max w h] (one side is exact and the other
    is less than one pixel away from the exactly scaled length). *)
Lemma thumbnail_spec (w h : Z) :
  (0 < w)%Z → (0 < h)%Z →
  let tw := fst (thumbnail (w, h) (MAX_THUMB_DIM, MAX_THUMB_DIM)) in
  let th := snd (thumbnail (w, h) (MAX_THUMB_DIM, MAX_THUMB_DIM)) in
  (1 <= tw <= 360)%Z ∧ (1 <= th <= 360)%Z ∧
  (Z.abs (tw * h - th * w) < Z.max w h)%Z.
Proof.
  intros Hw Hh. unfold thumbnail. cbn [fst snd].
  rewrite !max_thumb_box.
  destruct ((w <=? 360)%Z && (h <=? 360)%Z) eqn:Efit.
  { apply andb_true_iff in Efit as [?%Z.leb_le ?%Z.leb_le]. simpl. lia. }
  clear Efit.
  assert (HW : 0 < inject_Z w) by (change 0 with (inject_Z 0); by rewrite <- Zlt_Qlt).
  assert (HH : 0 < inject_Z h) by (change 0 with (inject_Z 0); by rewrite <- Zlt_Qlt).
  change (inject_Z 360) with 360.
  set (W := inject_Z w) in *. set (H := inject_Z h) in *.
  assert (Hasp : 0 < W / H) by (apply Qlt_shift_div_l; lra).
  assert (Hmul : W / H * H == W) by (field; lra).
  assert (E1 : 360 / 360 == 1) by reflexivity.
  set (a := W / H) in *. clearbody a.
  destruct (Qle_bool a (360 / 360)) eqn:E.
  - apply Qle_bool_iff in E. rewrite E1 in E.
    set (key := fun n : Z => _).
    destruct (round_aspect_spec (360 * a) key) as (R1 & R2 & R3 & R4);
      [lra|].
    set (r := round_aspect _ key) in *. cbn [fst snd].
    assert (Hc : (Qceiling (360 * a) <= 360)%Z).
    { apply (Z.le_trans _ (Qceiling 360)); [|by vm_compute].
      apply Qceiling_resp_le. lra. }
    assert (Hd : -H < inject_Z r * H - 360 * W ∧
                 inject_Z r * H - 360 * W < H) by (split; nra).
    destruct Hd as [Hd1 Hd2].
    assert (Hz : (- h < r * h - 360 * w < h)%Z).
    { split; rewrite Zlt_Qlt; unfold Z.sub;
        rewrite ?inject_Z_plus, ?inject_Z_opp, ?inject_Z_mult;
        change (inject_Z 360) with 360; fold W H; lra. }
    lia.
  - set (key := fun n : Z => _).
    assert (E' : 1 < a).
    { apply Qnot_le_lt. intros Hle.
      assert (Qle_bool a (360 / 360) = true); [|congruence].
      apply Qle_bool_iff. by rewrite E1. }
    assert (HWH : H < W) by nra.
    assert (Hv : 360 / a * a == 360) by (field; lra).
    assert (Hv0 : 0 < 360 / a) by (apply Qlt_shift_div_l; lra).
    set (v := 360 / a) in *. clearbody v.
    assert (Hv1 : v <= 360) by nra.
    destruct (round_aspect_spec v key) as (R1 & R2 & R3 & R4); [lra|].
    set (r := round_aspect _ key) in *. cbn [fst snd].
    assert (Hc : (Qceiling v <= 360)%Z).
    { apply (Z.le_trans _ (Qceiling 360)); [|by vm_compute].
      apply Qceiling_resp_le. lra. }
    assert (Hvw : v * W == 360 * H) by nra.
    assert (Hd : -W < inject_Z r * W - 360 * H ∧
                 inject_Z r * W - 360 * H < W) by (split; nra).
    destruct Hd as [Hd1 Hd2].
    assert (Hz : (- w < r * w - 360 * h < w)%Z).
    { split; rewrite Zlt_Qlt; unfold Z.sub;
        rewrite ?inject_Z_plus, ?inject_Z_opp, ?inject_Z_mult;
        change (inject_Z 360) with 360; fold W H; lra. }
    lia.
Qed.

End ThumbnailFacts.

(** ** The three stages *)

Section PipelineFacts.
Context {datetime number : Type} {libs : PyLibs datetime number}.

(** *** Order of the names *)


Lemma sorted_Permutation (l : list string) : sorted l ≡ₚ l.
Proof. apply merge_sort_Permutation. Qed.

Lemma sorted_StronglySorted (l : list string) :
  StronglySorted String.le (sorted l).
Proof. apply StronglySorted_merge_sort; apply _. Qed.

Lemma StronglySorted_filter {A} (R : relation A) (P : A → Prop)
    `{Hdec : ∀ x, Decision (P x)} (l : list A) :
  StronglySorted R l → StronglySorted R (filter P l).
Proof.
  intros Hs. induction Hs as [|x l Hl IH Hx]; [constructor|].
  rewrite filter_cons. destruct (decide (P x)); [|done].
  constructor; [done|].
  rewrite Forall_forall in *. intros y [_ Hy]%list_elem_of_filter. eauto.
Qed.


Lemma NoDup_listdir (folder : gmap string (file number)) :
  NoDup (listdir folder).
Proof. apply NoDup_fst_map_to_list. Qed.

Lemma elem_of_listdir (folder : gmap string (file number)) (fname : string) :
  fname ∈ listdir folder ↔ is_Some (folder !! fname).
Proof.
  unfold listdir. rewrite list_elem_of_fmap. split.
  - intros [[k f] [-> Hin]]. apply elem_of_map_to_list in Hin. eauto.
  - intros [f Hf]. exists (fname, f). split; [done|].
    by apply elem_of_map_to_list.
Qed.


(** *** Thumbnail stage *)

Lemma dict_set_fresh {V} (d : list (string * V)) (k : string) (v : V) :
  k ∉ d.*1 → dict_set d k v = (d ++ [(k, v)])%list.
Proof.
  induction d as [|[k' v'] d IH]; simpl; [done|].
  rewrite not_elem_of_cons. intros [Hne Hk].
  destruct (decide (k' = k)); [congruence|]. by rewrite IH.
Qed.

(** One iteration either raises or goes on, with one more record when the
    name is that of a regular file that opens. *)
Lemma generate_step_cases (folder : gmap string (file number))
    (thumb_dir : string) (st : thumbs_state) (fname : string) :
  generate_step folder thumb_dir st fname =
    match step_raises folder thumb_dir fname with
    | Some e => Raise e
    | None =>
        Ok match thumb_record folder thumb_dir fname with
           | Some info => (dict_set (fst st) fname info,
                           (snd st ++ [(path info, thumb_px info)])%list)
           | None => st
           end
    end.
Proof.
  unfold generate_step, step_raises, thumb_record, img_thumbnail, img_save.
  destruct (folder !! fname) as [f|]; simpl; [|done].
  destruct (isfile f); simpl; [|done].
  destruct (image_open f) as [img|e]; [|by destruct e].
  destruct (thumbnail_raises img); [done|]. simpl.
  by destruct (save_raises img _).
Qed.

Lemma thumb_record_is_image (folder : gmap string (file number))
    (thumb_dir fname : string) :
  is_Some (thumb_record folder thumb_dir fname) ↔
  is_image folder fname = true.
Proof.
  unfold thumb_record, is_image.
  destruct (folder !! fname) as [f|]; simpl; [|by rewrite is_Some_alt].
  destruct (isfile f); simpl; [|by rewrite is_Some_alt].
  destruct (image_open f) as [img|e]; simpl.
  - split; intros _; [done|by eauto].
  - split; [by intros [? ?]|done].
Qed.

Lemma for_loop_cons {A S} (body : S → A → result S) (a : A) (l : list A)
    (s : S) :
  for_loop body (a :: l) s =
    match body s a with
    | Ok s' => for_loop body l s'
    | Raise e => Raise e
    end.
Proof. reflexivity. Qed.

(** The loop raises the exception of the first name on which an iteration
    raises; when there is none it returns the records of the names, in
    order. *)
Lemma generate_loop (folder : gmap string (file number)) (thumb_dir : string)
    (names : list string) (st : thumbs_state) :
  NoDup names → (∀ n, n ∈ names → n ∉ (fst st).*1) →
  for_loop (generate_step folder thumb_dir) names st =
    match head (omap (step_raises folder thumb_dir) names) with
    | Some e => Raise e
    | None =>
        Ok ((fst st ++
             omap (λ n, (n,.) <$> thumb_record folder thumb_dir n) names)%list,
            (snd st ++
             omap (λ n, (λ i, (path i, thumb_px i)) <$>
                        thumb_record folder thumb_dir n) names)%list)
    end.
Proof.
  revert st. induction names as [|n names IH]; intros [d w] Hnd Hfresh.
  { simpl. by rewrite !app_nil_r. }
  apply NoDup_cons in Hnd as [Hn Hnd].
  rewrite for_loop_cons, generate_step_cases. cbn [fst snd] in *. csimpl.
  destruct (step_raises folder thumb_dir n) as [e|]; [done|]. csimpl.
  destruct (thumb_record folder thumb_dir n) as [info|] eqn:Hrec.
  - rewrite dict_set_fresh by (apply Hfresh; left).
    rewrite IH; [|done|].
    + cbn [fst snd]. csimpl. by rewrite <- !app_assoc.
    + intros m Hm. cbn [fst]. rewrite fmap_app, elem_of_app. simpl.
      rewrite list_elem_of_singleton. intros [Hin| ->]; [|done].
      revert Hin. apply Hfresh. by right.
  - rewrite IH; [done|done|].
    intros m Hm. apply Hfresh. by right.
Qed.

Lemma generate_thumbnails_unfold (folder : gmap string (file number))
    (thumb_dir : string) :
  generate_thumbnails folder thumb_dir =
    match stage_raises folder thumb_dir with
    | Some e => Raise e
    | None =>
        Ok (omap (λ n, (n,.) <$> thumb_record folder thumb_dir n)
                 (sorted (listdir folder)),
            omap (λ n, (λ i, (path i, thumb_px i)) <$>
                       thumb_record folder thumb_dir n)
                 (sorted (listdir folder)))
    end.
Proof.
  unfold generate_thumbnails, stage_raises. rewrite generate_loop; [done| |].
  - rewrite sorted_Permutation. apply NoDup_listdir.
  - intros n _. simpl. apply not_elem_of_nil.
Qed.

Lemma generate_thumbnails_ok (folder : gmap string (file number))
    (thumb_dir : string) (st : thumbs_state) :
  generate_thumbnails folder thumb_dir = Ok st →
  stage_raises folder thumb_dir = None ∧
  st = (omap (λ n, (n,.) <$> thumb_record folder thumb_dir n)
             (sorted (listdir folder)),
        omap (λ n, (λ i, (path i, thumb_px i)) <$>
                   thumb_record folder thumb_dir n)
             (sorted (listdir folder))).
Proof.
  rewrite generate_thumbnails_unfold.
  destruct (stage_raises folder thumb_dir); [discriminate|].
  by intros [= <-].
Qed.

Lemma generate_thumbnails_raise (folder : gmap string (file number))
    (thumb_dir : string) (e : exn) :
  generate_thumbnails folder thumb_dir = Raise e ↔
  stage_raises folder thumb_dir = Some e.
Proof.
  rewrite generate_thumbnails_unfold.
  destruct (stage_raises folder thumb_dir); split; congruence.
Qed.



Lemma head_omap_none {A B} (g : A → option B) (l : list A) :
  head (omap g l) = None ↔ Forall (λ x, g x = None) l.
Proof.
  induction l as [|a l IH]; csimpl; [split; [constructor|done]|].
  destruct (g a) as [b'|] eqn:Ha; csimpl.
  - split; [discriminate|]. intros [H _]%Forall_cons. congruence.
  - rewrite IH. split; [by constructor|]. by intros [_ H]%Forall_cons.
Qed.

Lemma head_omap_elem {A B} (g : A → option B) (l : list A) (a : A) (b : B) :
  a ∈ l → g a = Some b → is_Some (head (omap g l)).
Proof.
  intros Hin Ha. destruct (head (omap g l)) eqn:E; [eauto|].
  apply head_omap_none in E. rewrite Forall_forall in E.
  specialize (E a Hin). congruence.
Qed.

(** An iteration that raises ends the stage with an exception: its own, or
    that of an earlier name. *)
Lemma step_raises_stage (folder : gmap string (file number))
    (thumb_dir fname : string) (e : exn) :
  step_raises folder thumb_dir fname = Some e →
  ∃ e', generate_thumbnails folder thumb_dir = Raise e'.
Proof.
  intros He.
  assert (Hin : fname ∈ sorted (listdir folder)).
  { rewrite sorted_Permutation. apply elem_of_listdir.
    unfold step_raises in He. by destruct (folder !! fname); eauto. }
  destruct (head_omap_elem _ _ _ _ Hin He) as [e' He'].
  exists e'. by apply generate_thumbnails_raise.
Qed.

Lemma stage_returns_step (folder : gmap string (file number))
    (thumb_dir fname : string) :
  stage_raises folder thumb_dir = None →
  step_raises folder thumb_dir fname = None.
Proof.
  intros Hs. destruct (step_raises folder thumb_dir fname) as [e|] eqn:He;
    [|done].
  destruct (step_raises_stage _ _ _ _ He) as [e' He'].
  apply generate_thumbnails_raise in He'. congruence.
Qed.

Lemma thumbs_keys (folder : gmap string (file number)) (thumb_dir : string)
    (names : list string) :
  (omap (λ n, (n,.) <$> thumb_record folder thumb_dir n) names).*1 =
  filter (λ n, is_image folder n = true) names.
Proof.
  induction names as [|n names IH]; [done|].
  rewrite filter_cons. csimpl.
  destruct (thumb_record folder thumb_dir n) as [info|] eqn:Hrec; csimpl.
  - rewrite decide_True
      by (apply (thumb_record_is_image folder thumb_dir); eauto).
    by rewrite IH.
  - rewrite decide_False; [done|].
    intros [? ?]%(thumb_record_is_image folder thumb_dir). congruence.
Qed.

Lemma thumb_record_inv (folder : gmap string (file number))
    (thumb_dir n : string) (info : thumb_info) :
  thumb_record folder thumb_dir n = Some info →
  ∃ f img, folder !! n = Some f ∧ isfile f = true ∧
           image_open f = Ok img ∧
           info = {| path := path_join thumb_dir n;
                     thumb_px := thumbnail (size img)
                                   (MAX_THUMB_DIM, MAX_THUMB_DIM) |}.
Proof.
  unfold thumb_record. destruct (folder !! n) as [f|]; [|done].
  csimpl. destruct (isfile f) eqn:Hreg; [|done].
  destruct (image_open f) as [img|] eqn:Himg; [|done].
  intros [= <-]. by exists f, img.
Qed.

Lemma thumb_record_path (folder : gmap string (file number))
    (thumb_dir n : string) (info : thumb_info) :
  thumb_record folder thumb_dir n = Some info →
  path info = path_join thumb_dir n.
Proof. by intros (f & img & _ & _ & _ & ->)%thumb_record_inv. Qed.

Lemma saved_paths (folder : gmap string (file number)) (thumb_dir : string)
    (names : list string) :
  (omap (λ n, (λ i, (path i, thumb_px i)) <$>
              thumb_record folder thumb_dir n) names).*1 =
  path_join thumb_dir <$> filter (λ n, is_image folder n = true) names.
Proof.
  induction names as [|n names IH]; [done|].
  rewrite filter_cons. csimpl.
  destruct (thumb_record folder thumb_dir n) as [info|] eqn:Hrec; csimpl.
  - rewrite decide_True
      by (apply (thumb_record_is_image folder thumb_dir); eauto).
    csimpl. rewrite IH. f_equal. by eapply thumb_record_path.
  - rewrite decide_False; [done|].
    intros [? ?]%(thumb_record_is_image folder thumb_dir). congruence.
Qed.


Lemma thumbs_elem (folder : gmap string (file number)) (thumb_dir : string)
    (names : list string) (n : string) (info : thumb_info) :
  (n, info) ∈ omap (λ n, (n,.) <$> thumb_record folder thumb_dir n) names ↔
  n ∈ names ∧ thumb_record folder thumb_dir n = Some info.
Proof.
  rewrite list_elem_of_omap. split.
  - intros (m & Hm & Heq).
    destruct (thumb_record folder thumb_dir m) eqn:E; simplify_eq/=. done.
  - intros [Hn Hrec]. exists n. by rewrite Hrec.
Qed.

(** What a returning stage holds: its keys are the regular files that open,
    in sorted order, without repetition; the saved files are its records. *)
Lemma stage_keys (folder : gmap string (file number)) (thumb_dir : string)
    (st : thumbs_state) :
  generate_thumbnails folder thumb_dir = Ok st →
  (fst st).*1 = filter (λ n, is_image folder n = true)
                       (sorted (listdir folder)).
Proof. intros [_ ->]%generate_thumbnails_ok. apply thumbs_keys. Qed.

Lemma stage_elem (folder : gmap string (file number)) (thumb_dir : string)
    (st : thumbs_state) (n : string) (info : thumb_info) :
  generate_thumbnails folder thumb_dir = Ok st →
  (n, info) ∈ fst st ↔ thumb_record folder thumb_dir n = Some info.
Proof.
  intros [_ ->]%generate_thumbnails_ok. cbn [fst]. rewrite thumbs_elem.
  split; [by intros [_ ?]|]. intros Hrec. split; [|done].
  rewrite sorted_Permutation. apply elem_of_listdir.
  apply thumb_record_inv in Hrec as (f & _ & Hf & _). eauto.
Qed.

Lemma thumbs_NoDup (folder : gmap string (file number)) (thumb_dir : string)
    (st : thumbs_state) :
  generate_thumbnails folder thumb_dir = Ok st → NoDup (fst st).*1.
Proof.
  intros Hst. rewrite (stage_keys _ _ _ Hst).
  apply NoDup_filter. rewrite sorted_Permutation. apply NoDup_listdir.
Qed.

Lemma saved_of_thumbs (folder : gmap string (file number))
    (thumb_dir : string) (st : thumbs_state) :
  generate_thumbnails folder thumb_dir = Ok st →
  snd st = (λ item, (path (snd item), thumb_px (snd item))) <$> fst st.
Proof.
  intros [_ ->]%generate_thumbnails_ok. cbn [fst snd].
  induction (sorted (listdir folder)) as [|n l IH]; [done|]. csimpl.
  destruct (thumb_record folder thumb_dir n); csimpl; by rewrite IH.
Qed.

(** *** Skipping a name *)

Lemma listdir_delete (folder : gmap string (file number)) (fname : string)
    (f : file number) :
  folder !! fname = Some f →
  listdir folder ≡ₚ fname :: listdir (delete fname folder).
Proof.
  intros Hf. unfold listdir.
  rewrite <- (map_to_list_delete folder fname f Hf). done.
Qed.

Lemma filter_all {A} (P : A → Prop) `{Hdec : ∀ x, Decision (P x)}
    (l : list A) :
  Forall P l → filter P l = l.
Proof.
  induction 1 as [|x l Hx Hl IH]; [done|].
  by rewrite filter_cons, decide_True, IH.
Qed.

Lemma sorted_listdir_delete (folder : gmap string (file number))
    (fname : string) (f : file number) :
  folder !! fname = Some f →
  sorted (listdir (delete fname folder)) =
  filter (λ n, n ≠ fname) (sorted (listdir folder)).
Proof.
  intros Hf. apply (StronglySorted_unique String.le).
  - apply sorted_StronglySorted.
  - apply StronglySorted_filter, sorted_StronglySorted.
  - rewrite !sorted_Permutation, (listdir_delete folder fname f Hf).
    rewrite filter_cons, decide_False by (intros Hne; by apply Hne).
    rewrite filter_all; [done|].
    apply Forall_forall. intros n Hn ->.
    apply elem_of_listdir in Hn as [? Hn]. by rewrite lookup_delete_eq in Hn.
Qed.

Lemma omap_skip {B} (g g' : string → option B) (fname : string)
    (names : list string) :
  g fname = None → (∀ n, n ≠ fname → g' n = g n) →
  omap g' (filter (λ n, n ≠ fname) names) = omap g names.
Proof.
  intros Hnone Hsame. induction names as [|n names IH]; [done|].
  rewrite filter_cons. destruct (decide (n ≠ fname)) as [Hne|Heq]; csimpl.
  - by rewrite Hsame, IH.
  - apply dec_stable in Heq as ->. by rewrite Hnone.
Qed.

Lemma thumb_record_delete (folder : gmap string (file number))
    (thumb_dir fname n : string) :
  n ≠ fname →
  thumb_record (delete fname folder) thumb_dir n =
  thumb_record folder thumb_dir n.
Proof.
  intros Hne. unfold thumb_record. by rewrite lookup_delete_ne.
Qed.

Lemma step_raises_delete (folder : gmap string (file number))
    (thumb_dir fname n : string) :
  n ≠ fname →
  step_raises (delete fname folder) thumb_dir n =
  step_raises folder thumb_dir n.
Proof.
  intros Hne. unfold step_raises. by rewrite lookup_delete_ne.
Qed.

(** A name on which the iteration neither raises nor records anything can
    be taken out of the folder: the stage raises or returns the same. *)
Lemma generate_thumbnails_without (folder : gmap string (file number))
    (thumb_dir fname : string) (f : file number) :
  folder !! fname = Some f →
  thumb_record folder thumb_dir fname = None →
  step_raises folder thumb_dir fname = None →
  generate_thumbnails (delete fname folder) thumb_dir =
  generate_thumbnails folder thumb_dir.
Proof.
  intros Hf Hrec Hstep. rewrite !generate_thumbnails_unfold.
  unfold stage_raises. rewrite (sorted_listdir_delete folder fname f Hf).
  rewrite (omap_skip (step_raises folder thumb_dir)); [|done|];
    [|intros n Hne; by apply step_raises_delete].
  destruct (head _); [done|].
  do 2 f_equal; apply omap_skip.
  - by rewrite Hrec.
  - intros n Hne. by rewrite thumb_record_delete.
  - by rewrite Hrec.
  - intros n Hne. by rewrite thumb_record_delete.
Qed.

(** *** Metadata stage *)

Lemma for_each_cons_inv {A B} (f : A → result B) (a : A) (l : list A)
    (r : list B) :
  for_each f (a :: l) = Ok r →
  ∃ b bs, f a = Ok b ∧ for_each f l = Ok bs ∧ r = b :: bs.
Proof.
  simpl. destruct (f a) as [b|]; simpl; [|discriminate].
  destruct (for_each f l) as [bs|]; simpl; [|discriminate].
  intros [= <-]. eauto.
Qed.



Lemma for_each_ext {A B} (f g : A → result B) (l : list A) :
  (∀ a, a ∈ l → f a = g a) → for_each f l = for_each g l.
Proof.
  induction l as [|a l IH]; intros Hfg; [done|]. simpl.
  rewrite Hfg by left. rewrite IH; [done|]. intros b Hb. apply Hfg. by right.
Qed.

Lemma collect_metadata_filenames (folder : gmap string (file number))
    (thumbs : list (string * thumb_info)) (entries : list ImageEntry) :
  collect_metadata folder thumbs = Ok entries →
  filename <$> entries = thumbs.*1 ∧
  thumb_path <$> entries = path <$> thumbs.*2 ∧
  thumb_size <$> entries = thumb_px <$> thumbs.*2.
Proof.
  unfold collect_metadata. revert entries.
  induction thumbs as [|[n info] thumbs IH]; intros entries.
  { by intros [= <-]. }
  intros (e & es & He & Hes & ->)%for_each_cons_inv.
  apply collect_entry_inv in He as (f & img & _ & _ & _ & Hn & Hp & Hs).
  destruct (IH es Hes) as (IH1 & IH2 & IH3). csimpl.
  by rewrite Hn, Hp, Hs, IH1, IH2, IH3.
Qed.

Lemma collect_metadata_same (folder folder' : gmap string (file number))
    (thumbs : list (string * thumb_info)) :
  (∀ n, n ∈ thumbs.*1 → folder' !! n = folder !! n) →
  collect_metadata folder' thumbs = collect_metadata folder thumbs.
Proof.
  intros Hsame. apply for_each_ext. intros [n info] Hin.
  unfold collect_entry. rewrite Hsame; [done|].
  apply list_elem_of_fmap. by exists (n, info).
Qed.



(** *** Report stage *)





(** *** The whole run *)

Lemma main_cases (folder : gmap string (file number))
    (thumb_dir output_pdf : string) :
  main folder thumb_dir output_pdf =
    match generate_thumbnails folder thumb_dir with
    | Raise e => Raise e
    | Ok st =>
        match collect_metadata folder (fst st) with
        | Raise e => Raise e
        | Ok entries =>
            Ok {| saved_thumbnails := snd st;
                  report_entries := entries;
                  pdf := fst (create_pdf_report entries output_pdf);
                  stdout := snd (create_pdf_report entries output_pdf) |}
        end
    end.
Proof.
  unfold main.
  destruct (generate_thumbnails folder thumb_dir) as [[thumbs saved]|e];
    [|done].
  change (Ok (thumbs, saved) ≫= ?k) with (k (thumbs, saved)).
  cbn [fst snd]. cbv beta iota.
  destruct (collect_metadata folder thumbs) as [entries|e]; [|done].
  change (Ok entries ≫= ?k) with (k entries). cbv beta.
  by destruct (create_pdf_report entries output_pdf).
Qed.

Lemma main_ok_inv (folder : gmap string (file number))
    (thumb_dir output_pdf : string) (r : run) :
  main folder thumb_dir output_pdf = Ok r →
  ∃ st entries,
    generate_thumbnails folder thumb_dir = Ok st ∧
    collect_metadata folder (fst st) = Ok entries ∧
    r = {| saved_thumbnails := snd st;
           report_entries := entries;
           pdf := fst (create_pdf_report entries output_pdf);
           stdout := snd (create_pdf_report entries output_pdf) |}.
Proof.
  rewrite main_cases.
  destruct (generate_thumbnails folder thumb_dir) as [st|]; [|discriminate].
  destruct (collect_metadata folder (fst st)) as [entries|] eqn:Hc;
    [|discriminate].
  intros [= <-]. by exists st, entries.
Qed.


Lemma main_without (folder : gmap string (file number))
    (thumb_dir output_pdf fname : string) (f : file number) :
  folder !! fname = Some f →
  thumb_record folder thumb_dir fname = None →
  step_raises folder thumb_dir fname = None →
  main folder thumb_dir output_pdf
  = main (delete fname folder) thumb_dir output_pdf.
Proof.
  intros Hf Hrec Hstep. rewrite !main_cases.
  rewrite (generate_thumbnails_without folder thumb_dir fname f Hf Hrec Hstep).
  destruct (generate_thumbnails folder thumb_dir) as [st|] eqn:Hst; [|done].
  rewrite (collect_metadata_same folder (delete fname folder)); [done|].
  intros n Hn. apply lookup_delete_ne. intros ->.
  apply list_elem_of_fmap in Hn as ([k info] & -> & Hin).
  apply (stage_elem _ _ _ _ _ Hst) in Hin. simpl in Hrec. congruence.
Qed.




End PipelineFacts.








(** * Further properties *)

(** ** The report composer, page by page *)

Section ReportFacts.
Local Open Scope Q_scope.

Ltac geometry :=
  unfold advance, needed_space in *;
  destruct layout_values as (? & ? & ? & ? & ? & ?).

Lemma report_step_cursor (c : list canvas_op) (y : Q) (e : ImageEntry) :
  snd (report_step (c, y) e) == draw_y y e - advance e.
Proof.
  rewrite report_step_unfold. cbv zeta. simpl snd. unfold advance. lra.
Qed.

Lemma cursor_snoc (pre : list ImageEntry) (e : ImageEntry) :
  snd (report_loop (pre ++ [e])) ==
  draw_y (snd (report_loop pre)) e - advance e.
Proof.
  rewrite report_loop_snoc. destruct (report_loop pre) as [c y].
  apply report_step_cursor.
Qed.

Lemma report_loop_nil : report_loop [] = ([], PAGE_HEIGHT - MARGIN).
Proof. reflexivity. Qed.

Lemma canvas_snoc (pre : list ImageEntry) (e : ImageEntry) :
  ∃ block,
    fst (report_loop (pre ++ [e])) =
      (fst (report_loop pre) ++
       (if page_break (snd (report_loop pre)) e then [ShowPage] else []) ++
       DrawImage (thumb_path e) MARGIN
         (draw_y (snd (report_loop pre)) e - inject_Z (snd (thumb_size e)))
         (inject_Z (fst (thumb_size e))) (inject_Z (snd (thumb_size e))) ::
       block)%list ∧
    length block = 7%nat ∧ page_breaks block = 0%nat.
Proof.
  rewrite report_loop_snoc. destruct (report_loop pre) as [c y].
  rewrite report_step_unfold. cbv zeta. simpl fst. simpl snd.
  eexists. split; [reflexivity|]. split; reflexivity.
Qed.

Lemma draw_y_le_top (y : Q) (e : ImageEntry) :
  y <= PAGE_HEIGHT - MARGIN → draw_y y e <= PAGE_HEIGHT - MARGIN.
Proof. unfold draw_y. destruct (page_break y e); lra. Qed.

Lemma advance_ge (e : ImageEntry) : nonneg_height e → 598 # 5 <= advance e.
Proof.
  unfold nonneg_height. rewrite Zle_Qle. change (inject_Z 0) with 0.
  intros H. geometry. lra.
Qed.

Lemma cursor_le_top (entries : list ImageEntry) :
  Forall nonneg_height entries →
  snd (report_loop entries) <= PAGE_HEIGHT - MARGIN.
Proof.
  induction entries as [|e pre IH] using rev_ind; intros Hall.
  - unfold report_loop. simpl. lra.
  - apply Forall_app in Hall as [Hpre He].
    apply Forall_cons in He as [He _].
    rewrite cursor_snoc.
    pose proof (draw_y_le_top _ e (IH Hpre)).
    pose proof (advance_ge e He). lra.
Qed.

Lemma total_advance_snoc (l : list ImageEntry) (e : ImageEntry) :
  total_advance (l ++ [e]) == total_advance l + advance e.
Proof. induction l as [|x l IH]; simpl; [lra|]. rewrite IH. lra. Qed.

Lemma total_advance_ge (l : list ImageEntry) :
  Forall nonneg_height l →
  inject_Z (Z.of_nat (length l)) * (598 # 5) <= total_advance l.
Proof.
  induction 1 as [|e l He Hl IH].
  { change (inject_Z (Z.of_nat (length (@nil ImageEntry)))) with 0.
    simpl. lra. }
  simpl length. rewrite Nat2Z.inj_succ. unfold Z.succ.
  rewrite inject_Z_plus. change (inject_Z 1) with 1. simpl total_advance.
  pose proof (advance_ge e He). lra.
Qed.

(** Along a stretch of entries, either one of them starts a new page or
    none does. *)
Lemma first_break_or_none (pre l : list ImageEntry) :
  (∃ i e, l !! i = Some e ∧
          page_break (snd (report_loop (pre ++ take i l))) e = true) ∨
  (∀ i e, l !! i = Some e →
          page_break (snd (report_loop (pre ++ take i l))) e = false).
Proof.
  induction l as [|x l IH] using rev_ind.
  - right. intros i e Hi. by rewrite lookup_nil in Hi.
  - destruct IH as [(i & e & Hi & Hb)|Hnone].
    + left. exists i, e. split; [by apply lookup_app_l_Some|].
      rewrite take_app_le; [done|]. apply lookup_lt_Some in Hi. lia.
    + destruct (page_break (snd (report_loop (pre ++ l))) x) eqn:Hx.
      * left. exists (length l), x. split.
        -- by rewrite list_lookup_middle.
        -- by rewrite take_app_length.
      * right. intros i e Hi.
        destruct (decide (i < length l)%nat) as [Hlt|Hge].
        -- rewrite lookup_app_l in Hi by done.
           rewrite take_app_le by lia. by apply Hnone.
        -- assert (i = length l) as ->.
           { apply lookup_lt_Some in Hi. rewrite length_app in Hi.
             simpl in Hi. lia. }
           rewrite list_lookup_middle in Hi by done. injection Hi as <-.
           by rewrite take_app_length.
Qed.

(** Without a page break the cursor moves down by the entries' advances. *)
Lemma cursor_without_break (pre l : list ImageEntry) :
  (∀ i e, l !! i = Some e →
          page_break (snd (report_loop (pre ++ take i l))) e = false) →
  snd (report_loop (pre ++ l)) == snd (report_loop pre) - total_advance l.
Proof.
  induction l as [|x l IH] using rev_ind; intros Hnone.
  - rewrite app_nil_r. simpl. lra.
  - rewrite app_assoc, cursor_snoc, total_advance_snoc.
    assert (Hx : page_break (snd (report_loop (pre ++ l))) x = false).
    { rewrite <- (take_app_length l [x]). apply Hnone.
      by rewrite list_lookup_middle. }
    unfold draw_y. rewrite Hx. rewrite IH; [lra|].
    intros i e Hi. rewrite <- (take_app_le l [x]).
    + apply Hnone. by apply lookup_app_l_Some.
    + apply lookup_lt_Some in Hi. lia.
Qed.

Lemma page_breaks_app (c1 c2 : list canvas_op) :
  page_breaks (c1 ++ c2) = (page_breaks c1 + page_breaks c2)%nat.
Proof. unfold page_breaks. by rewrite omap_app, length_app. Qed.

Lemma page_breaks_snoc (pre : list ImageEntry) (e : ImageEntry) :
  page_breaks (fst (report_loop (pre ++ [e]))) =
  (page_breaks (fst (report_loop pre)) +
   (if page_break (snd (report_loop pre)) e then 1 else 0))%nat.
Proof.
  destruct (canvas_snoc pre e) as (block & -> & _ & Hb).
  rewrite !page_breaks_app.
  change (DrawImage ?p ?x ?y ?w ?h :: block)
    with ([DrawImage p x y w h] ++ block)%list.
  rewrite page_breaks_app, Hb.
  destruct (page_break _ e); reflexivity.
Qed.

Lemma length_canvas_snoc (pre : list ImageEntry) (e : ImageEntry) :
  length (fst (report_loop (pre ++ [e]))) =
  (length (fst (report_loop pre)) + 8 +
   (if page_break (snd (report_loop pre)) e then 1 else 0))%nat.
Proof.
  destruct (canvas_snoc pre e) as (block & -> & Hlen & _).
  rewrite !length_app. simpl length. rewrite Hlen.
  destruct (page_break _ e); simpl; lia.
Qed.

Lemma page_breaks_prefix (pre l : list ImageEntry) :
  (page_breaks (fst (report_loop pre)) <=
   page_breaks (fst (report_loop (pre ++ l))))%nat.
Proof.
  induction l as [|x l IH] using rev_ind; [by rewrite app_nil_r|].
  rewrite app_assoc, page_breaks_snoc. lia.
Qed.


Lemma indexed_snoc (P : list ImageEntry → ImageEntry → Prop)
    (l : list ImageEntry) (x : ImageEntry) :
  (∀ i e, (l ++ [x])%list !! i = Some e → P (take i (l ++ [x])%list) e) ↔
  (∀ i e, l !! i = Some e → P (take i l) e) ∧ P l x.
Proof.
  split.
  - intros H. split.
    + intros i e Hi. rewrite <- (take_app_le l [x]).
      * apply H. by apply lookup_app_l_Some.
      * apply lookup_lt_Some in Hi. lia.
    + rewrite <- (take_app_length l [x]). apply H.
      by rewrite list_lookup_middle.
  - intros [Hl Hx] i e Hi.
    destruct (decide (i < length l)%nat) as [Hlt|Hge].
    + rewrite lookup_app_l in Hi by done. rewrite take_app_le by lia. auto.
    + assert (i = length l) as ->.
      { apply lookup_lt_Some in Hi. rewrite length_app in Hi.
        simpl in Hi. lia. }
      rewrite list_lookup_middle in Hi by done. injection Hi as <-.
      by rewrite take_app_length.
Qed.

Lemma no_break_iff_count (entries : list ImageEntry) :
  (∀ i e, entries !! i = Some e →
          page_break (snd (report_loop (take i entries))) e = false) ↔
  page_breaks (fst (report_loop entries)) = 0%nat.
Proof.
  induction entries as [|x l IH] using rev_ind.
  - split; [done|]. intros _ i e Hi. by rewrite lookup_nil in Hi.
  - rewrite (indexed_snoc
               (λ l e, page_break (snd (report_loop l)) e = false)).
    rewrite IH, page_breaks_snoc.
    destruct (page_break (snd (report_loop l)) x).
    + split; [intros [_ ?]; discriminate|lia].
    + split; [intros [? _]; lia|]. intros. split; [lia|done].
Qed.

Lemma no_break_iff_fits (entries : list ImageEntry) :
  (∀ i e, entries !! i = Some e →
          page_break (snd (report_loop (take i entries))) e = false) ↔
  (∀ i e, entries !! i = Some e →
          total_advance (take i entries) + needed_space e
          <= PAGE_HEIGHT - 2 * MARGIN).
Proof.
  induction entries as [|x l IH] using rev_ind.
  - split; intros _ i e Hi; by rewrite lookup_nil in Hi.
  - rewrite (indexed_snoc
               (λ l e, page_break (snd (report_loop l)) e = false)).
    rewrite (indexed_snoc
               (λ l e, total_advance l + needed_space e
                       <= PAGE_HEIGHT - 2 * MARGIN)).
    rewrite <- IH.
    assert (H0 : snd (report_loop []) == PAGE_HEIGHT - MARGIN)
      by (unfold report_loop; simpl; lra).
    split; intros [Hl Hx]; (split; [done|]);
      pose proof (cursor_without_break [] l Hl) as Hy; simpl app in Hy;
      unfold page_break in *; rewrite Qltb_ge in *; lra.
Qed.

(** X1: the page test never comes close to a tie.  Moving the cursor by less
    than 1/635 point does not change whether an entry starts a new page. *)
Theorem X1_page_test_is_robust (pre : list ImageEntry) (e : ImageEntry)
    (d : Q) :
  - (1 # 635) < d → d < 1 # 635 →
  page_break (snd (report_loop pre) + d) e
  = page_break (snd (report_loop pre)) e.
Proof.
  intros Hlo Hhi. pose proof (page_test_gap pre e) as Hgap. cbv zeta in Hgap.
  unfold page_break.
  destruct (Qltb (snd (report_loop pre)) _) eqn:E1;
    destruct (Qltb (snd (report_loop pre) + d) _) eqn:E2; try done.
  - apply Qltb_lt in E1. apply Qltb_ge in E2. lra.
  - apply Qltb_ge in E1. apply Qltb_lt in E2. lra.
Qed.

(** X2: the first entry is drawn at the top of the first page when its
    thumbnail is at most 664 pixels high; a taller one does not fit on any
    page, and the report then opens with a page break, that is with a blank
    page. *)
Theorem X2_first_page (e : ImageEntry) (rest : list ImageEntry)
    (output_pdf : string) :
  let c := fst (create_pdf_report (e :: rest) output_pdf) in
  let h := inject_Z (snd (thumb_size e)) in
  ((snd (thumb_size e) <= 664)%Z →
   c !! 0%nat = Some (DrawImage (thumb_path e) MARGIN
                        (PAGE_HEIGHT - MARGIN - h)
                        (inject_Z (fst (thumb_size e))) h)) ∧
  ((665 <= snd (thumb_size e))%Z → c !! 0%nat = Some ShowPage).
Proof.
  intros c h. subst c h.
  assert (Hpb : page_break (PAGE_HEIGHT - MARGIN) e = true ↔
                (665 <= snd (thumb_size e))%Z).
  { rewrite page_break_iff. split.
    - intros Hlt.
      destruct (Z_lt_le_dec (snd (thumb_size e)) 665) as [Hs|Hs]; [|lia].
      exfalso. assert (Hs' : (snd (thumb_size e) <= 664)%Z) by lia.
      rewrite Zle_Qle in Hs'. change (inject_Z 664) with 664 in Hs'.
      geometry. lra.
    - intros Hge. rewrite Zle_Qle in Hge.
      change (inject_Z 665) with 665 in Hge. geometry. lra. }
  destruct (canvas_snoc [] e) as (block & Hc & _).
  rewrite report_loop_nil in Hc. cbn [fst snd] in Hc.
  destruct (fold_report_step_extends rest (report_loop ([] ++ [e])))
    as [more Hmore].
  assert (Hall : fst (create_pdf_report (e :: rest) output_pdf) =
                 ((fst (report_loop ([] ++ [e])) ++ more) ++ [Save])%list).
  { unfold create_pdf_report. cbn [fst]. rewrite <- Hmore.
    unfold report_loop at 1. by rewrite (fold_left_app report_step [e] rest). }
  rewrite Hall, Hc. clear Hall Hc Hmore.
  split.
  - intros Hle.
    assert (E : page_break (PAGE_HEIGHT - MARGIN) e = false).
    { apply not_true_is_false. intros E. apply Hpb in E. lia. }
    unfold draw_y. rewrite E. reflexivity.
  - intros Hge. apply Hpb in Hge. rewrite Hge. reflexivity.
Qed.

(** X3: a page break is always followed at once by an image whose top edge
    is at the top margin, so no page after the first is left empty and two
    page breaks never follow each other. *)
Theorem X3_page_break_is_followed_by_an_image (entries : list ImageEntry)
    (output_pdf : string) (i : nat) :
  fst (create_pdf_report entries output_pdf) !! i = Some ShowPage →
  ∃ p x y w h,
    fst (create_pdf_report entries output_pdf) !! S i
      = Some (DrawImage p x y w h) ∧
    y + h == PAGE_HEIGHT - MARGIN.
Proof.
  unfold create_pdf_report. simpl fst. intros Hi.
  assert (Hloop : fst (report_loop entries) !! i = Some ShowPage).
  { destruct (decide (i < length (fst (report_loop entries)))%nat).
    - by rewrite lookup_app_l in Hi.
    - rewrite lookup_app_r in Hi by lia.
      destruct (i - _)%nat as [|[|?]]; simpl in Hi; discriminate. }
  cut (∃ p x y w h,
         fst (report_loop entries) !! S i = Some (DrawImage p x y w h) ∧
         y + h == PAGE_HEIGHT - MARGIN).
  { intros (p & x & y & w & h & Hs & Hy). exists p, x, y, w, h.
    split; [|done]. by apply lookup_app_l_Some. }
  clear Hi. revert i Hloop.
  induction entries as [|e pre IH] using rev_ind; intros i Hi.
  { change (fst (report_loop [])) with (@nil canvas_op) in Hi.
    by rewrite lookup_nil in Hi. }
  destruct (canvas_snoc pre e) as (block & Hc & Hlen & Hb).
  rewrite Hc in Hi |- *.
  destruct (decide (i < length (fst (report_loop pre)))%nat) as [Hlt|Hge].
  - rewrite lookup_app_l in Hi by done.
    destruct (IH i Hi) as (p & x & y & w & h & Hs & Hy).
    exists p, x, y, w, h. split; [|done]. by apply lookup_app_l_Some.
  - rewrite lookup_app_r in Hi by lia.
    rewrite lookup_app_r by lia.
    replace (S i - length (fst (report_loop pre)))%nat
      with (S (i - length (fst (report_loop pre)))) by lia.
    unfold draw_y in *.
    destruct (page_break (snd (report_loop pre)) e) eqn:E; simpl in Hi |- *.
    + destruct (i - _)%nat as [|k]; simpl in Hi |- *.
      * eexists _, _, _, _, _. split; [reflexivity|]. lra.
      * exfalso. destruct k as [|k]; [discriminate|]. simpl in Hi.
        apply list_elem_of_lookup_2 in Hi.
        assert (Hpos : (0 < page_breaks block)%nat); [|lia].
        apply list_elem_of_split in Hi as (b1 & b2 & ->).
        rewrite page_breaks_app. unfold page_breaks at 2. simpl. lia.
    + exfalso. destruct (i - _)%nat as [|k]; [discriminate|]. simpl in Hi.
      apply list_elem_of_lookup_2 in Hi.
      assert (Hpos : (0 < page_breaks block)%nat); [|lia].
      apply list_elem_of_split in Hi as (b1 & b2 & ->).
      rewrite page_breaks_app. unfold page_breaks at 2. simpl. lia.
Qed.

(** X4: a page never holds more than six entries: of any six entries that
    follow an entry, at least one starts a new page. *)
Theorem X4_at_most_six_entries_per_page (pre : list ImageEntry)
    (e0 : ImageEntry) (l : list ImageEntry) :
  length l = 6%nat → Forall nonneg_height (pre ++ e0 :: l) →
  ∃ i e, l !! i = Some e ∧
         page_break (snd (report_loop (pre ++ e0 :: take i l))) e = true.
Proof.
  intros Hlen Hall.
  destruct (first_break_or_none (pre ++ [e0]) l) as [(i & e & Hi & Hb)|Hnone].
  { exists i, e. split; [done|]. by rewrite <- app_assoc in Hb. }
  exfalso.
  apply Forall_app in Hall as [Hpre Hl].
  apply Forall_cons in Hl as [He0 Hl].
  destruct (lookup_lt_is_Some_2 l 5) as [e5 H5]; [lia|].
  assert (H5' : page_break
                  (snd (report_loop ((pre ++ [e0]) ++ take 5 l))) e5 = false)
    by (by apply Hnone).
  assert (Hy : snd (report_loop ((pre ++ [e0]) ++ take 5 l)) ==
               snd (report_loop (pre ++ [e0])) - total_advance (take 5 l)).
  { apply cursor_without_break. intros j e Hj. rewrite take_take.
    apply lookup_take_Some in Hj as [Hj Hlt].
    rewrite Nat.min_l by lia. by apply Hnone. }
  assert (Hta : inject_Z 5 * (598 # 5) <= total_advance (take 5 l)).
  { pose proof (total_advance_ge (take 5 l)) as Hge.
    rewrite length_take, Hlen in Hge. apply Hge.
    apply Forall_take, Hl. }
  change (inject_Z 5) with 5 in Hta.
  pose proof (cursor_snoc pre e0) as Hc.
  pose proof (draw_y_le_top _ e0 (cursor_le_top pre Hpre)) as Hd.
  pose proof (advance_ge e0 He0) as Ha.
  assert (H5n : nonneg_height e5).
  { rewrite Forall_forall in Hl. apply Hl.
    by apply list_elem_of_lookup_2 in H5. }
  unfold nonneg_height in H5n. rewrite Zle_Qle in H5n.
  change (inject_Z 0) with 0 in H5n.
  unfold page_break in H5'. apply Qltb_ge in H5'.
  geometry. lra.
Qed.

(** X5: the report fits on one page exactly when, for every entry, the
    advances of the entries before it plus its own needed space are at most
    the height between the margins. *)
Theorem X5_single_page_iff (entries : list ImageEntry) (output_pdf : string) :
  page_breaks (fst (create_pdf_report entries output_pdf)) = 0%nat ↔
  (∀ i e, entries !! i = Some e →
          total_advance (take i entries) + needed_space e
          <= PAGE_HEIGHT - 2 * MARGIN).
Proof.
  rewrite <- no_break_iff_fits, no_break_iff_count.
  unfold create_pdf_report. simpl fst. rewrite page_breaks_app.
  unfold page_breaks at 2. simpl. lia.
Qed.

(** X6: the canvas holds eight calls per entry, one per page break and the
    final save; when the first thumbnail is at most 664 pixels high there
    are fewer page breaks than entries, so the report has no more pages
    than entries. *)
Theorem X6_report_size (entries : list ImageEntry) (output_pdf : string) :
  (∀ e, head entries = Some e → (snd (thumb_size e) <= 664)%Z) →
  let c := fst (create_pdf_report entries output_pdf) in
  length c = (8 * length entries + page_breaks c + 1)%nat ∧
  last c = Some Save ∧
  (page_breaks c <= length entries - 1)%nat.
Proof.
  intros Hhead c. subst c. unfold create_pdf_report. cbn [fst].
  rewrite page_breaks_app, length_app, last_snoc.
  change (page_breaks [Save]) with 0%nat.
  change (length [Save]) with 1%nat.
  assert (Hlen : length (fst (report_loop entries)) =
                 (8 * length entries
                  + page_breaks (fst (report_loop entries)))%nat).
  { clear Hhead. induction entries as [|x l IH] using rev_ind; [done|].
    rewrite length_canvas_snoc, page_breaks_snoc, length_app, IH.
    simpl length. destruct (page_break _ x); lia. }
  split; [lia|]. split; [done|]. clear Hlen.
  rewrite Nat.add_0_r.
  induction entries as [|x l IH] using rev_ind;
    [rewrite report_loop_nil; apply Nat.le_0_l|].
  rewrite page_breaks_snoc, length_app. simpl length.
  destruct l as [|e l'].
  - simpl app in *.
    assert (Hx : (snd (thumb_size x) <= 664)%Z) by (by apply Hhead).
    assert (E : page_break (snd (report_loop [])) x = false).
    { apply page_break_false_iff. unfold report_loop. simpl snd.
      rewrite Zle_Qle in Hx. change (inject_Z 664) with 664 in Hx.
      geometry. lra. }
    rewrite E. simpl. lia.
  - assert (IH' : (page_breaks (fst (report_loop (e :: l')))
                   <= length (e :: l') - 1)%nat).
    { apply IH. intros e' He'. apply Hhead. by simpl in *. }
    simpl length in *. destruct (page_break _ x); lia.
Qed.

End ReportFacts.

Lemma X1_witness :
  page_break (snd (report_loop [Sample.sample_entry 150]) + (1 # 1000))%Q
             (Sample.sample_entry 150)
  = page_break (snd (report_loop [Sample.sample_entry 150]))
               (Sample.sample_entry 150).
Proof.
  apply (X1_page_test_is_robust [Sample.sample_entry 150]
           (Sample.sample_entry 150) (1 # 1000)); reflexivity.
Defined.

Lemma X2_witness :
  fst (create_pdf_report [Sample.sample_entry 700] "report.pdf") !! 0%nat
  = Some ShowPage.
Proof.
  apply (X2_first_page (Sample.sample_entry 700) [] "report.pdf").
  vm_compute. discriminate.
Defined.

(** Three 150-pixel entries: the third starts the second page. *)
Lemma X3_witness :
  ∃ p x y w h,
    fst (create_pdf_report (replicate 3 (Sample.sample_entry 150))
                           "report.pdf") !! 17%nat
      = Some (DrawImage p x y w h) ∧
    (y + h == PAGE_HEIGHT - MARGIN)%Q.
Proof.
  apply (X3_page_break_is_followed_by_an_image
           (replicate 3 (Sample.sample_entry 150)) "report.pdf" 16).
  vm_compute. reflexivity.
Defined.

Lemma X4_witness :
  ∃ i e, replicate 6 (Sample.sample_entry 1) !! i = Some e ∧
         page_break
           (snd (report_loop ([] ++ Sample.sample_entry 1 ::
                              take i (replicate 6 (Sample.sample_entry 1)))))
           e = true.
Proof.
  apply (X4_at_most_six_entries_per_page [] (Sample.sample_entry 1)
           (replicate 6 (Sample.sample_entry 1))).
  - reflexivity.
  - repeat constructor; vm_compute; discriminate.
Defined.

Lemma X6_witness :
  let c := fst (create_pdf_report (replicate 4 (Sample.sample_entry 300))
                                  "report.pdf") in
  length c = (8 * 4 + page_breaks c + 1)%nat ∧
  last c = Some Save ∧
  (page_breaks c <= 4 - 1)%nat.
Proof.
  apply (X6_report_size (replicate 4 (Sample.sample_entry 300)) "report.pdf").
  intros e [= <-]. vm_compute. discriminate.
Defined.

(** ** The stages, beyond the claims *)

Section StageFacts.
Context {datetime number : Type} {libs : PyLibs datetime number}.

Lemma string_app_assoc (a b c : string) : (a ++ b) ++ c = a ++ (b ++ c).
Proof.
  induction a as [|ch a IH]; [reflexivity|].
  change (String ch ((a ++ b) ++ c) = String ch (a ++ (b ++ c))).
  by rewrite IH.
Qed.

(** [os.path.join] keeps a relative second component whole, behind a prefix
    that depends on the first component only. *)
Lemma path_join_prefix (a p : string) :
  starts_with_sep p = false → path_join a p = join_prefix a ++ p.
Proof.
  intros Hp. unfold path_join, join_prefix. rewrite Hp.
  destruct (ends_with_sep a); [done|].
  destruct a as [|ch a]; [done|]. by rewrite string_app_assoc.
Qed.



Lemma for_each_ok_elem {A B} (f : A → result B) (l : list A) (rs : list B)
    (r : B) :
  for_each f l = Ok rs → r ∈ rs → ∃ a, a ∈ l ∧ f a = Ok r.
Proof.
  revert rs. induction l as [|a l IH]; intros rs.
  - intros [= <-] Hr. by apply elem_of_nil in Hr.
  - intros (b & bs & Ha & Hl & ->)%for_each_cons_inv Hr.
    apply elem_of_cons in Hr as [->|Hr].
    + exists a. split; [left|done].
    + destruct (IH bs Hl Hr) as (a' & Hin & Ha').
      exists a'. split; [by right|done].
Qed.


Lemma collect_entry_fields (folder : gmap string (file number))
    (n : string) (info : thumb_info) (f : file number) (img : Image number)
    (e : ImageEntry) :
  folder !! n = Some f → image_open f = Ok img →
  collect_entry folder (n, info) = Ok e →
  filename e = n ∧ doc_type e = format img ∧
  file_size e = format_filesize (getsize f) ∧
  creation_date e = format_datetime (extract_creation_date f) ∧
  image_size e = str_int (fst (size img)) ++ " x " ++ str_int (snd (size img)) ∧
  resolve_dpi img f = Ok (dpi e) ∧
  thumb_path e = path info ∧ thumb_size e = thumb_px info.
Proof.
  intros Hf Himg. unfold collect_entry. rewrite Hf, Himg.
  destruct (size img) as [width height].
  destruct (resolve_dpi img f) as [d|]; simpl; [|discriminate].
  intros [= <-]. simpl. done.
Qed.


Lemma collect_metadata_thumbnails (folder : gmap string (file number))
    (thumbs : list (string * thumb_info)) (entries : list ImageEntry) :
  collect_metadata folder thumbs = Ok entries →
  (λ e, (thumb_path e, thumb_size e)) <$> entries =
  (λ item, (path (snd item), thumb_px (snd item))) <$> thumbs.
Proof.
  unfold collect_metadata. revert entries.
  induction thumbs as [|[n info] thumbs IH]; intros entries.
  { by intros [= <-]. }
  intros (e & es & He & Hes & ->)%for_each_cons_inv.
  apply collect_entry_inv in He as (f & img & _ & _ & _ & _ & Hp & Hs).
  csimpl. by rewrite Hp, Hs, (IH es Hes).
Qed.


(** X7: a directory entry that is not a regular file is ignored, whether or
    not PIL could open it: the thumbnail stage and the whole run are the
    same as on the folder without it. *)
Theorem X7_non_regular_entry_is_ignored (folder : gmap string (file number))
    (thumb_dir output_pdf fname : string) (f : file number) :
  folder !! fname = Some f → isfile f = false →
  generate_thumbnails folder thumb_dir
    = generate_thumbnails (delete fname folder) thumb_dir ∧
  main folder thumb_dir output_pdf
    = main (delete fname folder) thumb_dir output_pdf.
Proof.
  intros Hf Hreg.
  assert (Hrec : thumb_record folder thumb_dir fname = None).
  { unfold thumb_record. rewrite Hf. csimpl. by rewrite Hreg. }
  assert (Hstep : step_raises folder thumb_dir fname = None).
  { unfold step_raises. rewrite Hf. csimpl. by rewrite Hreg. }
  split.
  - symmetry. by eapply generate_thumbnails_without.
  - by eapply main_without.
Qed.

(** X8: when the thumbnail stage returns, its mapping has one record per
    kept name and no name twice; every record belongs to a regular file of
    the folder that opens as an image and that was resized and saved
    without an exception, and holds the path [os.path.join(thumb_dir, name)]
    and the size of the thumbnail; the files saved are exactly the records,
    in order; and there are no more records than directory entries. *)
Theorem X8_thumbnail_records (folder : gmap string (file number))
    (thumb_dir : string) (st : thumbs_state) :
  generate_thumbnails folder thumb_dir = Ok st →
  let thumbs := fst st in
  let saved := snd st in
  NoDup thumbs.*1 ∧
  saved = (λ item, (path (snd item), thumb_px (snd item))) <$> thumbs ∧
  (∀ n info, (n, info) ∈ thumbs →
     ∃ f img, folder !! n = Some f ∧ isfile f = true ∧
              image_open f = Ok img ∧
              thumbnail_raises img = None ∧
              save_raises img (path info) = None ∧
              path info = path_join thumb_dir n ∧
              thumb_px info = thumbnail (size img)
                                (MAX_THUMB_DIM, MAX_THUMB_DIM)) ∧
  (length thumbs <= length (listdir folder))%nat.
Proof.
  intros Hst thumbs saved. subst thumbs saved.
  split; [by eapply thumbs_NoDup|]. split; [by eapply saved_of_thumbs|].
  split.
  - intros n info Hin. apply (stage_elem _ _ _ _ _ Hst) in Hin.
    apply thumb_record_inv in Hin as (f & img & Hf & Hreg & Himg & ->).
    pose proof (generate_thumbnails_ok _ _ _ Hst) as [Hnone _].
    pose proof (stage_returns_step folder thumb_dir n Hnone) as Hs.
    unfold step_raises in Hs. rewrite Hf in Hs. csimpl in Hs.
    rewrite Hreg, Himg in Hs. cbn [path thumb_px].
    exists f, img. destruct (thumbnail_raises img); [discriminate|]. done.
  - rewrite <- (length_fmap fst), (stage_keys _ _ _ Hst).
    etrans; [apply length_filter|]. by rewrite sorted_Permutation.
Qed.

(** X9: when no name of the folder starts with a slash, as is the case for
    directory entries, a thumbnail stage that returns has saved every
    thumbnail at the thumbnail directory's prefix followed by the name, and
    the saved paths are pairwise distinct: no thumbnail overwrites
    another. *)
Theorem X9_thumbnail_paths_are_distinct (folder : gmap string (file number))
    (thumb_dir : string) (st : thumbs_state) :
  map_Forall (λ n _, starts_with_sep n = false) folder →
  generate_thumbnails folder thumb_dir = Ok st →
  NoDup (snd st).*1 ∧
  (snd st).*1 = (λ n, join_prefix thumb_dir ++ n) <$> (fst st).*1.
Proof.
  intros Hnames Hst.
  assert (Hkept : ∀ n, n ∈ (fst st).*1 → starts_with_sep n = false).
  { intros n Hn. rewrite (stage_keys _ _ _ Hst) in Hn.
    apply list_elem_of_filter in Hn as [_ Hn].
    rewrite sorted_Permutation in Hn.
    apply elem_of_listdir in Hn as [f Hf]. by apply (Hnames n f). }
  assert (Heq : (snd st).*1
                = (λ n, join_prefix thumb_dir ++ n) <$> (fst st).*1).
  { pose proof (generate_thumbnails_ok _ _ _ Hst) as [_ ->].
    revert Hkept. cbn [fst snd].
    rewrite saved_paths, thumbs_keys. intros Hkept.
    apply list_fmap_ext. intros i n Hn.
    apply path_join_prefix, Hkept. by eapply list_elem_of_lookup_2. }
  split; [|done]. rewrite Heq.
  apply NoDup_fmap_2; [|by eapply thumbs_NoDup].
  intros n1 n2 Hn. by apply (inj (String.app (join_prefix thumb_dir))).
Qed.


(** X11: in a run that returns, the entries carry, in order, exactly the
    paths and sizes of the thumbnails that were saved, and no two entries
    have the same file name. *)
Theorem X11_every_entry_has_its_saved_thumbnail
    (folder : gmap string (file number)) (thumb_dir output_pdf : string)
    (r : run) :
  main folder thumb_dir output_pdf = Ok r →
  (λ e, (thumb_path e, thumb_size e)) <$> report_entries r
    = saved_thumbnails r ∧
  NoDup (filename <$> report_entries r) ∧
  length (report_entries r) = length (saved_thumbnails r).
Proof.
  intros (st & entries & Hst & Hc & ->)%main_ok_inv.
  cbn [report_entries saved_thumbnails].
  pose proof (collect_metadata_thumbnails _ _ _ Hc) as Hpairs.
  destruct (collect_metadata_filenames _ _ _ Hc) as (Hnames & _).
  rewrite (saved_of_thumbs _ _ _ Hst), Hpairs, Hnames.
  split; [done|]. split; [by eapply thumbs_NoDup|].
  rewrite <- (length_fmap (λ e, (thumb_path e, thumb_size e))), Hpairs.
  by rewrite !length_fmap.
Qed.


(** X13: in a run that returns, every entry describes the file that bears
    its name: a regular file of the folder that opens as an image, whose
    format, size in bytes, creation date, pixel size (of the original, not
    of the thumbnail) and DPI the entry prints, with the thumbnail path
    [os.path.join(thumb_dir, name)] and the thumbnail's pixel size. *)
Theorem X13_entry_describes_its_file (folder : gmap string (file number))
    (thumb_dir output_pdf : string) (r : run) (e : ImageEntry) :
  main folder thumb_dir output_pdf = Ok r → e ∈ report_entries r →
  ∃ f img,
    folder !! filename e = Some f ∧ isfile f = true ∧
    image_open f = Ok img ∧
    doc_type e = format img ∧
    file_size e = format_filesize (getsize f) ∧
    creation_date e = format_datetime (extract_creation_date f) ∧
    image_size e
      = str_int (fst (size img)) ++ " x " ++ str_int (snd (size img)) ∧
    resolve_dpi img f = Ok (dpi e) ∧
    thumb_path e = path_join thumb_dir (filename e) ∧
    thumb_size e = thumbnail (size img) (MAX_THUMB_DIM, MAX_THUMB_DIM).
Proof.
  intros (st & entries & Hst & Hc & ->)%main_ok_inv He.
  cbn [report_entries] in He.
  destruct (for_each_ok_elem _ _ _ _ Hc He) as ([n info] & Hin & Hn).
  apply (stage_elem _ _ _ _ _ Hst) in Hin.
  apply thumb_record_inv in Hin as (f & img & Hf & Hreg & Himg & ->).
  destruct (collect_entry_fields folder n _ f img e Hf Himg Hn)
    as (H1 & H2 & H3 & H4 & H5 & H6 & H7 & H8).
  exists f, img. rewrite H1. cbn [path thumb_px] in H7, H8. done.
Qed.

(** X14: the creation date depends on no other tag than
    [EXIF DateTimeOriginal] and [Image DateTime]: adding, changing or
    removing any other tag leaves it unchanged. *)
Theorem X14_other_tags_do_not_affect_the_date (f : file number) (k : string)
    (o : option (IfdTag number)) :
  k ≠ "EXIF DateTimeOriginal" → k ≠ "Image DateTime" →
  extract_creation_date
    {| isfile := isfile f; stat := stat f; getsize := getsize f;
       image_open := image_open f;
       exif_tags := partial_alter (λ _, o) k (exif_tags f) |}
  = extract_creation_date f.
Proof.
  intros H1 H2.
  unfold extract_creation_date, get_exif_tags, get_file_creation_date.
  cbn [exif_tags stat]. by rewrite !lookup_partial_alter_ne.
Qed.

End StageFacts.

Lemma X7_witness :
  main (<["thumbnails" := Sample.subdirectory]> Sample.sample_folder)
       "out/thumbnails" "out/report.pdf"
  = main (delete "thumbnails"
            (<["thumbnails" := Sample.subdirectory]> Sample.sample_folder))
         "out/thumbnails" "out/report.pdf".
Proof.
  assert (Hf : <["thumbnails" := Sample.subdirectory]> Sample.sample_folder
               !! "thumbnails" = Some Sample.subdirectory)
    by apply lookup_insert_eq.
  exact (proj2 (X7_non_regular_entry_is_ignored _ "out/thumbnails"
                  "out/report.pdf" "thumbnails" Sample.subdirectory
                  Hf eq_refl)).
Defined.

Lemma sample_names_relative :
  map_Forall (λ n (_ : file Z), starts_with_sep n = false)
             Sample.sample_folder.
Proof.
  unfold Sample.sample_folder.
  repeat (apply map_Forall_insert_2; [reflexivity|]).
  apply map_Forall_empty.
Defined.

Lemma sample_stage_ok :
  generate_thumbnails Sample.sample_folder "out/thumbnails"
  = Ok Sample.sample_stage.
Proof. vm_compute. reflexivity. Defined.

Lemma X8_witness :
  NoDup (fst Sample.sample_stage).*1 ∧
  snd Sample.sample_stage
    = (λ item, (path (snd item), thumb_px (snd item)))
        <$> fst Sample.sample_stage.
Proof.
  pose proof (X8_thumbnail_records Sample.sample_folder "out/thumbnails"
                Sample.sample_stage sample_stage_ok) as (H1 & H2 & _).
  exact (conj H1 H2).
Defined.

Lemma X9_witness :
  NoDup (snd Sample.sample_stage).*1.
Proof.
  exact (proj1 (X9_thumbnail_paths_are_distinct Sample.sample_folder
                  "out/thumbnails" Sample.sample_stage
                  sample_names_relative sample_stage_ok)).
Defined.

Lemma sample_run_ok :
  main Sample.sample_folder "out/thumbnails" "out/report.pdf"
  = Ok Sample.sample_run.
Proof. vm_compute. reflexivity. Defined.

Lemma X11_witness :
  (λ e, (thumb_path e, thumb_size e)) <$> report_entries Sample.sample_run
    = saved_thumbnails Sample.sample_run ∧
  NoDup (filename <$> report_entries Sample.sample_run) ∧
  length (report_entries Sample.sample_run)
    = length (saved_thumbnails Sample.sample_run).
Proof.
  exact (X11_every_entry_has_its_saved_thumbnail Sample.sample_folder
           "out/thumbnails" "out/report.pdf" Sample.sample_run sample_run_ok).
Defined.


Lemma X13_witness :
  ∃ f img,
    Sample.sample_folder !! "a.png" = Some f ∧ isfile f = true ∧
    image_open f = Ok img ∧ size img = (200, 500)%Z.
Proof.
  assert (He : Sample.scan_entry ∈ report_entries Sample.sample_run)
    by (apply list_elem_of_here).
  destruct (X13_entry_describes_its_file Sample.sample_folder
              "out/thumbnails" "out/report.pdf" Sample.sample_run
              Sample.scan_entry sample_run_ok He)
    as (f & img & Hf & Hreg & Himg & _).
  exists f, img. repeat split; try done.
  assert (Hs : Sample.sample_folder !! "a.png" = Some Sample.scan)
    by (vm_compute; reflexivity).
  cbn [filename Sample.scan_entry] in Hf. rewrite Hs in Hf.
  injection Hf as <-. by injection Himg as <-.
Defined.

Lemma X14_witness :
  extract_creation_date
    {| isfile := isfile Sample.dated_photo; stat := stat Sample.dated_photo;
       getsize := getsize Sample.dated_photo;
       image_open := image_open Sample.dated_photo;
       exif_tags :=
         partial_alter (λ _, Some (Sample.ascii_tag "2001:01:01 00:00:00"))
                       "EXIF DateTimeDigitized"
                       (exif_tags Sample.dated_photo) |}
  = extract_creation_date Sample.dated_photo.
Proof.
  apply X14_other_tags_do_not_affect_the_date; intros [=].
Defined.

(** ** File sizes *)

Section FilesizeFacts.
Local Open Scope Z_scope.

(** [round_half_even n d] is a nearest integer to [n / d]; on a tie it is
    the even one. *)
Lemma round_half_even_spec (n d : Z) :
  0 < d →
  2 * Z.abs (n - round_half_even n d * d) <= d ∧
  (2 * Z.abs (n - round_half_even n d * d) = d →
   Z.even (round_half_even n d) = true).
Proof.
  intros Hd. unfold round_half_even.
  pose proof (Z.div_mod n d ltac:(lia)) as Hn.
  pose proof (Z.mod_pos_bound n d Hd) as Hr.
  set (q := n / d) in *. set (r := n mod d) in *.
  destruct (Z.ltb_spec d (2 * r)) as [H1|H1].
  - split; [nia|]. intros Htie. nia.
  - destruct (Z.eqb_spec (2 * r) d) as [H2|H2]; simpl.
    + destruct (Z.odd q) eqn:Hodd.
      * split; [nia|]. intros _. by rewrite Z.add_1_r, Z.even_succ.
      * split; [nia|]. intros _. by rewrite <- Z.negb_odd, Hodd.
    + split; [nia|]. intros Htie. nia.
Qed.

Lemma round_half_even_mono (n1 n2 d : Z) :
  0 < d → n1 <= n2 → round_half_even n1 d <= round_half_even n2 d.
Proof.
  intros Hd Hn.
  destruct (Z.eq_dec n1 n2) as [->|Hne]; [lia|].
  destruct (round_half_even_spec n1 d Hd) as [H1 _].
  destruct (round_half_even_spec n2 d Hd) as [H2 _].
  destruct (Z_lt_le_dec (round_half_even n2 d) (round_half_even n1 d))
    as [Hlt|Hle]; [|done].
  exfalso. nia.
Qed.

Lemma round_half_even_exact (k d : Z) :
  0 < d → round_half_even (k * d) d = k.
Proof.
  intros Hd. unfold round_half_even. rewrite Z.div_mul, Z.mod_mul by lia.
  destruct (Z.ltb_spec d (2 * 0)); [lia|].
  destruct (Z.eqb_spec (2 * 0) d); [lia|]. reflexivity.
Qed.

(** *** Conversion to a double *)

Lemma log2_lt_53 (n : Z) : Z.log2 n < 53 ↔ n < 2 ^ 53.
Proof.
  destruct (Z_lt_le_dec 0 n) as [Hpos|Hneg].
  - symmetry. by apply Z.log2_lt_pow2.
  - rewrite Z.log2_nonpos by lia. split; intros _; [|lia].
    apply Z.le_lt_trans with 0; [done|]. by apply Z.pow_pos_nonneg.
Qed.

(** An integer below 2^53 is a double. *)
Lemma float_of_int_small (n : Z) : n < 2 ^ 53 → float_of_int n = n.
Proof.
  intros Hn%log2_lt_53. unfold float_of_int.
  by destruct (Z.ltb_spec (Z.log2 n) 53); [|lia].
Qed.

(** A longer one is rounded to a nearest multiple of its unit in the last
    place, and stays between the powers of two around it. *)
Lemma float_of_int_large (n : Z) :
  53 <= Z.log2 n →
  float_of_int n
    = round_half_even n (2 ^ (Z.log2 n - 52)) * 2 ^ (Z.log2 n - 52) ∧
  2 ^ Z.log2 n <= float_of_int n <= 2 ^ (Z.log2 n + 1) ∧
  2 * Z.abs (n - float_of_int n) <= 2 ^ (Z.log2 n - 52).
Proof.
  intros He. unfold float_of_int.
  destruct (Z.ltb_spec (Z.log2 n) 53); [lia|].
  assert (Hn : 0 < n).
  { destruct (Z_lt_le_dec 0 n); [done|]. rewrite Z.log2_nonpos in He; lia. }
  destruct (Z.log2_spec n Hn) as [Hlo Hhi].
  set (e := Z.log2 n) in *. set (u := 2 ^ (e - 52)).
  assert (Hu : 0 < u) by (apply Z.pow_pos_nonneg; lia).
  assert (He0 : 2 ^ e = 2 ^ 52 * u).
  { unfold u. rewrite <- Z.pow_add_r by lia. f_equal. lia. }
  assert (He1 : 2 ^ (e + 1) = 2 ^ 53 * u).
  { unfold u. rewrite <- Z.pow_add_r by lia. f_equal. lia. }
  change (Z.succ e) with (e + 1) in Hhi.
  split; [done|]. split.
  - split.
    + rewrite He0. apply Z.mul_le_mono_nonneg_r; [lia|].
      rewrite <- (round_half_even_exact (2 ^ 52) u Hu).
      apply round_half_even_mono; lia.
    + rewrite He1. apply Z.mul_le_mono_nonneg_r; [lia|].
      rewrite <- (round_half_even_exact (2 ^ 53) u Hu).
      apply round_half_even_mono; lia.
  - by destruct (round_half_even_spec n u Hu) as [H' _].
Qed.

Lemma float_of_int_mono (n1 n2 : Z) :
  n1 <= n2 → float_of_int n1 <= float_of_int n2.
Proof.
  intros Hle. pose proof (Z.log2_le_mono n1 n2 Hle) as He.
  destruct (Z_lt_le_dec (Z.log2 n2) 53) as [H2|H2].
  { rewrite !float_of_int_small; [done| |]; apply log2_lt_53; lia. }
  destruct (float_of_int_large n2 H2) as (E2 & [L2 _] & _).
  destruct (Z_lt_le_dec (Z.log2 n1) 53) as [H1|H1].
  { apply log2_lt_53 in H1. rewrite (float_of_int_small n1 H1).
    assert (2 ^ 53 <= 2 ^ Z.log2 n2) by (apply Z.pow_le_mono_r; lia). lia. }
  destruct (float_of_int_large n1 H1) as (E1 & [_ U1] & _).
  destruct (Z.eq_dec (Z.log2 n1) (Z.log2 n2)) as [Heq|Hne].
  - rewrite E1, E2, Heq.
    assert (Hu : 0 < 2 ^ (Z.log2 n2 - 52)) by (apply Z.pow_pos_nonneg; lia).
    apply Z.mul_le_mono_nonneg_r; [lia|]. by apply round_half_even_mono.
  - assert (2 ^ (Z.log2 n1 + 1) <= 2 ^ Z.log2 n2)
      by (apply Z.pow_le_mono_r; lia).
    lia.
Qed.



(** X16: a whole number [k] of mebibytes, below 2^53, is printed as
    ["k.00 MB"]; a file of fewer than 5243 bytes is printed as ["0.00 MB"],
    and from 5243 bytes on the printed value is at least one hundredth. *)
Theorem X16_filesize_landmarks (k bytes_size : Z) :
  0 <= k < 2 ^ 53 → 0 <= bytes_size →
  format_filesize (k * 1048576) = (str_int k ++ ".00 MB")%string ∧
  (bytes_size <= 5242 → format_filesize bytes_size = "0.00 MB"%string) ∧
  (5243 <= bytes_size →
   1 <= round_half_even (100 * float_of_int bytes_size) (1024 * 1024)).
Proof.
  intros Hk Hb. change (1024 * 1024) with 1048576. split; [|split].
  - assert (Hexact : float_of_int (k * 1048576) = k * 1048576).
    { destruct (Z_lt_le_dec (Z.log2 (k * 1048576)) 53) as [H|H].
      { apply float_of_int_small. by apply log2_lt_53. }
      destruct (float_of_int_large _ H) as (-> & _ & _).
      assert (Hn : 0 < k * 1048576).
      { destruct (Z_lt_le_dec 0 (k * 1048576)); [done|].
        rewrite Z.log2_nonpos in H; lia. }
      assert (Hlt : Z.log2 (k * 1048576) < 73).
      { apply Z.log2_lt_pow2; [done|].
        change (2 ^ 73) with (2 ^ 53 * 1048576). lia. }
      set (e := Z.log2 (k * 1048576)) in *.
      assert (Hsplit : 1048576 = 2 ^ (72 - e) * 2 ^ (e - 52)).
      { rewrite <- Z.pow_add_r by lia.
        replace (72 - e + (e - 52)) with 20 by lia. reflexivity. }
      assert (Hu : 0 < 2 ^ (e - 52)) by (apply Z.pow_pos_nonneg; lia).
      clearbody e.
      assert (Hm : k * 1048576 = k * 2 ^ (72 - e) * 2 ^ (e - 52))
        by (rewrite Hsplit; ring).
      rewrite Hm. by rewrite round_half_even_exact. }
    unfold format_filesize. change (1024 * 1024) with 1048576.
    rewrite Hexact.
    assert (Hh : round_half_even (100 * (k * 1048576)) 1048576 = 100 * k).
    { replace (100 * (k * 1048576)) with (100 * k * 1048576) by lia.
      by apply round_half_even_exact. }
    rewrite Hh.
    replace (100 * k) with (k * 100) by lia.
    rewrite Z.div_mul, Z.mod_mul by lia. reflexivity.
  - intros Hsmall. unfold format_filesize. change (1024 * 1024) with 1048576.
    rewrite float_of_int_small
      by (apply Z.le_lt_trans with 5242; [done|reflexivity]).
    assert (Hh : round_half_even (100 * bytes_size) 1048576 = 0).
    { unfold round_half_even.
      rewrite Z.div_small, Z.mod_small by lia.
      destruct (Z.ltb_spec 1048576 (2 * (100 * bytes_size))); [lia|].
      destruct (Z.eqb_spec (2 * (100 * bytes_size)) 1048576); [lia|].
      reflexivity. }
    rewrite Hh. reflexivity.
  - intros Hbig.
    pose proof (float_of_int_mono 5243 bytes_size Hbig) as Hm.
    rewrite (float_of_int_small 5243) in Hm by reflexivity.
    destruct (round_half_even_spec (100 * float_of_int bytes_size) 1048576
                ltac:(lia)) as [Hnear _].
    nia.
Qed.

End FilesizeFacts.


(** Sizes of more than 53 bits: the size is rounded to a double before it
    is divided, and the hundredths printed are those of the double, not
    those of the exact quotient; 2^53 + 1 mebibytes are printed as 2^53. *)
Lemma filesize_beyond_53_bits :
  format_filesize ((2 ^ 53 + 1) * 1048576) = "9007199254740992.00 MB" ∧
  float_of_int 9007199254756721 = 9007199254756720%Z ∧
  format_filesize 9007199254756721 = "8589934592.01 MB" ∧
  round_half_even (100 * 9007199254756721) (1024 * 1024)
    = 858993459202%Z ∧
  format_filesize 4611686018427393204 = "4398046511104.00 MB" ∧
  round_half_even (100 * 4611686018427393204) (1024 * 1024)
    = 439804651110401%Z.
Proof. repeat split; vm_compute; reflexivity. Qed.

Lemma X16_witness :
  format_filesize (3 * 1048576) = "3.00 MB" ∧
  format_filesize 5242 = "0.00 MB".
Proof.
  assert (H3 : (0 <= 3 < 2 ^ 53)%Z) by (split; [lia|reflexivity]).
  assert (Hb : (0 <= 5242)%Z) by lia.
  destruct (X16_filesize_landmarks 3 5242 H3 Hb) as (Hw & Hs & _).
  split; [exact Hw|]. apply Hs. lia.
Defined.

(** ** From the folder to the page *)

Section RunFacts.
Context {datetime number : Type} {libs : PyLibs datetime number}.

(** X17: when every image of the folder has a positive width and height,
    a run that returns only produces entries whose thumbnails are within
    360 by 360 pixels, and every drawing call of its report stays within
    the page margins. *)
Theorem X17_run_stays_within_margins (folder : gmap string (file number))
    (thumb_dir output_pdf : string) (r : run) :
  map_Forall (λ _ f, ∀ img, image_open f = Ok img →
                (0 < fst (size img))%Z ∧ (0 < snd (size img))%Z) folder →
  main folder thumb_dir output_pdf = Ok r →
  Forall thumb_bounded (report_entries r) ∧ Forall within_margins (pdf r).
Proof.
  intros Hpos (st & entries & Hst & Hc & ->)%main_ok_inv.
  cbn [report_entries pdf].
  assert (Hb : Forall thumb_bounded entries).
  { apply Forall_forall. intros e He.
    destruct (for_each_ok_elem _ _ _ _ Hc He) as ([n info] & Hin & Hn).
    apply (stage_elem _ _ _ _ _ Hst) in Hin.
    apply thumb_record_inv in Hin as (f & img & Hf & Hreg & Himg & ->).
    destruct (collect_entry_fields folder n _ f img e Hf Himg Hn)
      as (_ & _ & _ & _ & _ & _ & _ & Hsz).
    cbn [thumb_px] in Hsz.
    destruct (Hpos n f Hf img Himg) as [Hw Hh].
    destruct (size img) as [w h]. cbn [fst snd] in Hw, Hh.
    pose proof (thumbnail_spec w h Hw Hh) as Hspec. cbv zeta in Hspec.
    unfold thumb_bounded. rewrite Hsz. lia. }
  split; [done|].
  unfold create_pdf_report. cbn [fst]. apply Forall_app. split.
  - by apply report_loop_within.
  - repeat constructor.
Qed.

End RunFacts.

Lemma sample_sizes_positive :
  map_Forall (λ (_ : string) (f : file Z), ∀ img, image_open f = Ok img →
                (0 < fst (size img))%Z ∧ (0 < snd (size img))%Z)
             Sample.sample_folder.
Proof.
  unfold Sample.sample_folder.
  repeat (apply map_Forall_insert_2;
          [intros img [= <-]; split; reflexivity|]).
  apply map_Forall_empty.
Defined.

Lemma X17_witness :
  Forall thumb_bounded (report_entries Sample.sample_run) ∧
  Forall within_margins (pdf Sample.sample_run).
Proof.
  exact (X17_run_stays_within_margins Sample.sample_folder "out/thumbnails"
           "out/report.pdf" Sample.sample_run sample_sizes_positive
           sample_run_ok).
Defined.
